(** * mslotto: a shallow embedding of main.go

    The scraper's pure parts (string and number parsing, table and link
    extraction, the game model and its EV) are translated function by
    function; Go's int is a 64-bit integer modelled as Z with its range and
    wrap-around written out, float64 is IEEE-754 binary64 as given by the
    Standard Library's [SpecFloat], and the html tokenizer is modelled by the
    token stream it produces.  The goroutine pool of [main] is modelled as a
    transition system over counters. *)

From Stdlib Require Import ZArith Bool List String Ascii Lia.
From Stdlib Require Import Sorting.Permutation Sorting.Sorted.
From Stdlib Require Import Floats.SpecFloat.
Import ListNotations.
Open Scope Z_scope.

(** ** Go's int (64 bits) *)
Module GoInt.
Definition int_min : Z := - 2 ^ 63.
Definition int_max : Z := 2 ^ 63 - 1.
Definition in_range (z : Z) : Prop := int_min <= z <= int_max.
(** two's complement wrap-around of [+] on int *)
Definition wrap (z : Z) : Z := (z + 2 ^ 63) mod 2 ^ 64 - 2 ^ 63.
Definition add (a b : Z) : Z := wrap (a + b).
End GoInt.

(** ** The strings package, on byte strings *)
Module GoStrings.
(** [strings.ReplaceAll(s, c, "")] for a one-byte [c] *)
Fixpoint remove_char (c : ascii) (s : string) : string :=
  match s with
  | EmptyString => EmptyString
  | String x s' =>
      if Ascii.eqb x c then remove_char c s' else String x (remove_char c s')
  end.

(** [strings.ReplaceAll(s, a, b)] for one-byte [a] and [b] *)
Fixpoint replace_char (a b : ascii) (s : string) : string :=
  match s with
  | EmptyString => EmptyString
  | String x s' =>
      String (if Ascii.eqb x a then b else x) (replace_char a b s')
  end.

(** [strings.ToLower]: its ASCII path, exact on ASCII input.  On other
    input Go also lowers non-ASCII letters, a few of them to ASCII ones
    (U+0130 to 'i', U+212A to 'k'); this model leaves every byte from 128
    up unchanged *)
Definition lower_byte (c : ascii) : ascii :=
  let n := nat_of_ascii c in
  if (65 <=? n)%nat && (n <=? 90)%nat then ascii_of_nat (n + 32) else c.

Fixpoint ToLower (s : string) : string :=
  match s with
  | EmptyString => EmptyString
  | String x s' => String (lower_byte x) (ToLower s')
  end.

(** [strings.Contains(s, sub)] *)
Fixpoint Contains (s sub : string) : bool :=
  String.prefix sub s ||
  match s with
  | EmptyString => false
  | String _ s' => Contains s' sub
  end.

(** [strings.Split(s, sep)] for a one-byte [sep]: always
    [Count(s, sep) + 1] pieces, so [Split("", sep) = [""]] *)
Fixpoint Split (s : string) (c : ascii) : list string :=
  match s with
  | EmptyString => [EmptyString]
  | String x s' =>
      let parts := Split s' c in
      if Ascii.eqb x c then EmptyString :: parts
      else match parts with
           | p :: ps => String x p :: ps
           | [] => [String x EmptyString]
           end
  end.

(** [strings.Trim(s, cut)] for a one-byte cut set *)
Fixpoint trim_left (c : ascii) (s : string) : string :=
  match s with
  | String x s' => if Ascii.eqb x c then trim_left c s' else s
  | EmptyString => EmptyString
  end.

Definition rev_string (s : string) : string :=
  string_of_list_ascii (rev (list_ascii_of_string s)).

Definition Trim (s : string) (c : ascii) : string :=
  rev_string (trim_left c (rev_string (trim_left c s))).

(** [strings.TrimSpace]: leading and trailing runes for which
    [unicode.IsSpace] holds are removed, the runes being read from the
    UTF-8 bytes (an invalid byte reads as U+FFFD, which is not a space).
    The space runes: the ASCII spaces, U+0085 and U+00A0 (two bytes),
    U+1680, U+2000..U+200A, U+2028, U+2029, U+202F, U+205F and U+3000
    (three bytes). *)
Definition is_space (c : ascii) : bool :=
  let n := nat_of_ascii c in
  ((9 <=? n)%nat && (n <=? 13)%nat) || (n =? 32)%nat.

Definition space2 (c1 c2 : ascii) : bool :=
  let n1 := nat_of_ascii c1 in
  let n2 := nat_of_ascii c2 in
  ((n1 =? 194) && ((n2 =? 133) || (n2 =? 160)))%nat.

Definition space3 (c1 c2 c3 : ascii) : bool :=
  let n1 := nat_of_ascii c1 in
  let n2 := nat_of_ascii c2 in
  let n3 := nat_of_ascii c3 in
  ((n1 =? 225) && (n2 =? 154) && (n3 =? 128) ||
   (n1 =? 226) && (n2 =? 128) &&
     (((128 <=? n3) && (n3 <=? 138)) || (n3 =? 168) || (n3 =? 169) || (n3 =? 175)) ||
   (n1 =? 226) && (n2 =? 129) && (n3 =? 159) ||
   (n1 =? 227) && (n2 =? 128) && (n3 =? 128))%nat.

(** [TrimLeftFunc(s, unicode.IsSpace)] *)
Fixpoint trim_space_left (s : string) : string :=
  match s with
  | EmptyString => EmptyString
  | String c1 s1 =>
      if is_space c1 then trim_space_left s1
      else match s1 with
           | String c2 s2 =>
               if space2 c1 c2 then trim_space_left s2
               else match s2 with
                    | String c3 s3 => if space3 c1 c2 c3 then trim_space_left s3 else s
                    | EmptyString => s
                    end
           | EmptyString => s
           end
  end.

(** [TrimRightFunc(s, unicode.IsSpace)] on the reversed bytes of [s]: a
    rune read backwards by [utf8.DecodeLastRuneInString] is a space exactly
    when the last bytes are its encoding *)
Fixpoint trim_space_right_rev (r : string) : string :=
  match r with
  | EmptyString => EmptyString
  | String c1 r1 =>
      if is_space c1 then trim_space_right_rev r1
      else match r1 with
           | String c2 r2 =>
               if space2 c2 c1 then trim_space_right_rev r2
               else match r2 with
                    | String c3 r3 => if space3 c3 c2 c1 then trim_space_right_rev r3 else r
                    | EmptyString => r
                    end
           | EmptyString => r
           end
  end.

Definition TrimSpace (s : string) : string :=
  rev_string (trim_space_right_rev (rev_string (trim_space_left s))).
End GoStrings.
Import GoStrings.

(** ** strconv.Atoi on a 64-bit platform *)
Module Strconv.
Inductive NumError := ErrSyntax | ErrRange.

Definition digit (c : ascii) : option Z :=
  let n := nat_of_ascii c in
  if (48 <=? n)%nat && (n <=? 57)%nat then Some (Z.of_nat n - 48) else None.

(** the digit loop of Atoi's fast path *)
Fixpoint fast_digits (s : string) (n : Z) : option Z :=
  match s with
  | EmptyString => Some n
  | String c s' =>
      match digit c with
      | None => None
      | Some d => fast_digits s' (n * 10 + d)
      end
  end.

Definition maxUint64 : Z := 2 ^ 64 - 1.
Definition cutoff10 : Z := maxUint64 / 10 + 1.

(** [ParseUint(s, 10, 64)]'s digit loop from accumulator [n]; a
    letter or any other byte is a syntax error *)
Fixpoint uint_loop (s : string) (n : Z) : Z * option NumError :=
  match s with
  | EmptyString => (n, None)
  | String c s' =>
      match digit c with
      | None => (0, Some ErrSyntax)
      | Some d =>
          if cutoff10 <=? n then (maxUint64, Some ErrRange)
          else if maxUint64 <? n * 10 + d then (maxUint64, Some ErrRange)
          else uint_loop s' (n * 10 + d)
      end
  end.

Definition ParseUint (s : string) : Z * option NumError :=
  match s with
  | EmptyString => (0, Some ErrSyntax)
  | _ => uint_loop s 0
  end.

(** [ParseInt(s, 10, 0)] *)
Definition ParseInt (s0 : string) : Z * option NumError :=
  match s0 with
  | EmptyString => (0, Some ErrSyntax)
  | String c s' =>
      let '(neg, s) :=
        if Ascii.eqb c "+"%char then (false, s')
        else if Ascii.eqb c "-"%char then (true, s')
        else (false, s0) in
      let '(un, err) := ParseUint s in
      match err with
      | Some ErrSyntax => (0, err)
      | _ =>
          if negb neg && (2 ^ 63 <=? un) then (2 ^ 63 - 1, Some ErrRange)
          else if neg && (2 ^ 63 <? un) then (- 2 ^ 63, Some ErrRange)
          else ((if neg then - un else un), None)
      end
  end.

(** [Atoi]: fast path for 0 < len(s) < 19, otherwise [ParseInt] *)
Definition Atoi (s : string) : Z * option NumError :=
  let len := String.length s in
  if (0 <? len)%nat && (len <? 19)%nat then
    match s with
    | EmptyString => (0, Some ErrSyntax)
    | String c s' =>
        let neg := Ascii.eqb c "-"%char in
        let signed := neg || Ascii.eqb c "+"%char in
        let body := if signed then s' else s in
        if signed && (String.length s' <? 1)%nat then (0, Some ErrSyntax)
        else match fast_digits body 0 with
             | None => (0, Some ErrSyntax)
             | Some n => ((if neg then - n else n), None)
             end
    end
  else ParseInt s.
End Strconv.
Import Strconv.

(** [parseDollar] and [parseInt] of main.go *)
Definition parseDollar (s : string) : Z :=
  let s := remove_char "$"%char s in
  let s := remove_char ","%char s in
  fst (Atoi s).

Definition parseInt (s : string) : Z :=
  fst (Atoi (remove_char ","%char s)).

(** ** float64 *)
Module F64.
Definition prec : Z := 53.
Definition emax : Z := 1024.
Definition float64 := spec_float.

Definition add (x y : float64) : float64 := SFadd prec emax x y.
Definition sub (x y : float64) : float64 := SFsub prec emax x y.
Definition mul (x y : float64) : float64 := SFmul prec emax x y.
Definition div (x y : float64) : float64 := SFdiv prec emax x y.
(** [a > b] *)
Definition gt (a b : float64) : bool := SFltb b a.
(** [a >= b] *)
Definition ge (a b : float64) : bool := SFleb b a.

Definition zero : float64 := S754_zero false.

(** [float64(n)] for an int [n]: round to nearest even *)
Definition of_int (n : Z) : float64 := binary_normalize prec emax n 0 false.

(** [math.Round]: nearest integer, halves away from zero; zeros,
    infinities and NaN are returned unchanged *)
Definition Round (x : float64) : float64 :=
  match x with
  | S754_finite s m (Zneg k) =>
      let q := Zpos m / 2 ^ Zpos k in
      let r := Zpos m mod 2 ^ Zpos k in
      let q' := if 2 ^ Zpos k <=? 2 * r then q + 1 else q in
      if q' =? 0 then S754_zero s
      else binary_normalize prec emax (cond_Zopp s q') 0 false
  | _ => x
  end.

(** [int(x)] for a float64 [x] on amd64 (CVTTSD2SQ): truncation toward
    zero; NaN, the infinities and values out of the int range give the
    "integer indefinite" value -2^63 (the Go specification leaves the
    result implementation-dependent there) *)
Definition to_int (x : float64) : Z :=
  match x with
  | S754_zero _ => 0
  | S754_finite s m e =>
      let t := if 0 <=? e then Zpos m * 2 ^ e else Zpos m / 2 ^ (- e) in
      let v := cond_Zopp s t in
      if (GoInt.int_min <=? v) && (v <=? GoInt.int_max) then v
      else GoInt.int_min
  | _ => GoInt.int_min
  end.

Definition is_finite (x : float64) : bool :=
  match x with
  | S754_zero _ | S754_finite _ _ _ => true
  | _ => false
  end.

Definition is_nan (x : float64) : bool :=
  match x with S754_nan => true | _ => false end.
End F64.
Abbreviation float64 := F64.float64.

(** ** strconv.ParseFloat(s, 64)

    The scanner of the library is a parameter: [scan s] is [None] when [s]
    is not a well-formed float literal, and otherwise the correctly rounded
    value with a flag for the out-of-range case.  [ParseFloat] returns 0
    with [ErrSyntax] on a syntax error, as the library does. *)
Definition float_scanner := string -> option (float64 * bool).

Section Parsing.
Variable scan : float_scanner.

Definition ParseFloat (s : string) : float64 * option NumError :=
  match scan s with
  | None => (F64.zero, Some ErrSyntax)
  | Some (f, false) => (f, None)
  | Some (f, true) => (f, Some ErrRange)
  end.

(** [parseOdds] of main.go *)
Definition parseOdds (s : string) : float64 :=
  let parts := Split s ":"%char in
  if negb (List.length parts =? 2)%nat then F64.zero
  else fst (ParseFloat (nth 1 parts EmptyString)).
End Parsing.

(** A scanner for unsigned decimal literals [ddd] and [ddd.ddd]; any other
    input is refused.  It returns the correctly rounded binary64 value: the
    quotient is computed with 60 extra bits and a sticky bit. *)
Fixpoint digits_value (s : string) (acc : Z) (k : Z) : option (Z * Z) :=
  match s with
  | EmptyString => Some (acc, k)
  | String c s' =>
      match digit c with
      | Some d => digits_value s' (acc * 10 + d) (k + 1)
      | None => None
      end
  end.

Definition split_point (s : string) : string * option string :=
  match Split s "."%char with
  | [a] => (a, None)
  | [a; b] => (a, Some b)
  | _ => (s, Some "x"%string)
  end.

Definition round_decimal (m k : Z) : float64 * bool :=
  let f :=
    if k =? 0 then F64.of_int m
    else
      let sh := 4 * k + 60 in
      let q := (m * 2 ^ sh) / 10 ^ k in
      let sticky := if (m * 2 ^ sh) mod 10 ^ k =? 0 then 0 else 1 in
      binary_normalize F64.prec F64.emax (2 * q + sticky) (- (sh + 1)) false in
  (f, negb (F64.is_finite f)).

Definition scan_decimal : float_scanner := fun s =>
  let '(ip, fp) := split_point s in
  match digits_value ip 0 0, fp with
  | Some (mi, ki), None =>
      if 0 <? ki then Some (round_decimal mi 0) else None
  | Some (mi, ki), Some fs =>
      match digits_value fs 0 0 with
      | Some (mf, kf) =>
          if 0 <? ki + kf then Some (round_decimal (mi * 10 ^ kf + mf) kf) else None
      | None => None
      end
  | None, _ => None
  end.

(** ** The game model *)
Record PrizeTier := mkPrizeTier {
  Value : Z;
  OriginalCount : Z;
  RemainingCount : Z
}.

Record Game := mkGame {
  Name : string;
  Price : Z;
  Odds : float64;
  LaunchDate : string;
  GameNumber : Z;
  PrizeTiers : list PrizeTier;
  TotalOriginalPrizes : Z;
  TotalRemainingPrizes : Z;
  URL : string
}.

Definition OriginalTickets (g : Game) : Z :=
  F64.to_int (F64.Round (F64.mul (Odds g) (F64.of_int (TotalOriginalPrizes g)))).

Definition RemainingTickets (g : Game) : Z :=
  F64.to_int (F64.Round (F64.mul (Odds g) (F64.of_int (TotalRemainingPrizes g)))).

(** one iteration of the loop of [EV] *)
Definition ev_step (remainingTickets : Z) (expectedWin : float64) (p : PrizeTier)
  : float64 :=
  if (RemainingCount p <=? 0) || (Value p <=? 0) then expectedWin
  else
    let prob := F64.div (F64.of_int (RemainingCount p)) (F64.of_int remainingTickets) in
    F64.add expectedWin (F64.mul prob (F64.of_int (Value p))).

Definition EV (g : Game) : float64 :=
  let remainingTickets := RemainingTickets g in
  if remainingTickets =? 0 then F64.of_int (Price g)
  else
    let expectedWin := fold_left (ev_step remainingTickets) (PrizeTiers g) F64.zero in
    F64.sub (F64.of_int (Price g)) expectedWin.

(** ** Go panics and exits *)
Inductive outcome (A : Type) : Type :=
| Normal (a : A)
| Panicked        (* a runtime panic: index or slice bounds out of range *)
| Exited.         (* log.Fatal: os.Exit(1) *)
Arguments Normal {A} a.
Arguments Panicked {A}.
Arguments Exited {A}.

Definition table := list (list string).

Section Building.
Variable scan : float_scanner.

(** [ParseMetaData]: the switch takes the first label that matches *)
Definition meta_step (acc : Z * float64 * string) (row : list string)
  : Z * float64 * string :=
  let '(price, odds, launchDate) := acc in
  match row with
  | k :: val :: _ =>
      let key := ToLower k in
      if Contains key "ticket price" then (parseDollar val, odds, launchDate)
      else if Contains key "overall odds" then (price, parseOdds scan val, launchDate)
      else if Contains key "launch date" then (price, odds, val)
      else acc
  | _ => acc
  end.

Definition ParseMetaData (t : table) : Z * float64 * string :=
  fold_left meta_step t (0, F64.zero, EmptyString).

(** the body of [ParsePrizes]' loop *)
Definition prize_row (row : list string) : option PrizeTier :=
  match row with
  | c0 :: c1 :: c2 :: _ =>
      if Contains (ToLower c0) "2nd chance" then None
      else Some (mkPrizeTier (parseDollar c0) (parseInt c1) (parseInt c2))
  | _ => None
  end.

Fixpoint prize_rows (rows : table) : list PrizeTier :=
  match rows with
  | [] => []
  | r :: rs =>
      match prize_row r with
      | Some p => p :: prize_rows rs
      | None => prize_rows rs
      end
  end.

(** [ParsePrizes]: [table[1:]] panics on an empty table *)
Definition ParsePrizes (t : table) : outcome (list PrizeTier) :=
  match t with
  | [] => Panicked
  | _ :: rows => Normal (prize_rows rows)
  end.

Definition sum_original (ps : list PrizeTier) : Z :=
  fold_left (fun acc p => GoInt.add acc (OriginalCount p)) ps 0.

Definition sum_remaining (ps : list PrizeTier) : Z :=
  fold_left (fun acc p => GoInt.add acc (RemainingCount p)) ps 0.

(** [BuildGame]: [tables[0]] and [tables[1]] panic when missing *)
Definition BuildGame (tables : list table) (name url : string) : outcome Game :=
  match tables with
  | meta :: prizeTables :: _ =>
      let '(price, odds, launchdate) := ParseMetaData meta in
      match ParsePrizes prizeTables with
      | Normal prizeTiers =>
          Normal (mkGame name price odds launchdate 0 prizeTiers
                    (sum_original prizeTiers) (sum_remaining prizeTiers) url)
      | Panicked => Panicked
      | Exited => Exited
      end
  | _ => Panicked
  end.
End Building.

(** ** golang.org/x/net/html tokens

    A page is modelled by the tokens its tokenizer yields; the end of the
    list stands for the final [ErrorToken] (io.EOF). *)
Module Html.
Inductive TokenType :=
| ErrorToken | TextToken | StartTagToken | EndTagToken
| SelfClosingTagToken | CommentToken | DoctypeToken.

Definition tt_eqb (a b : TokenType) : bool :=
  match a, b with
  | ErrorToken, ErrorToken | TextToken, TextToken
  | StartTagToken, StartTagToken | EndTagToken, EndTagToken
  | SelfClosingTagToken, SelfClosingTagToken
  | CommentToken, CommentToken | DoctypeToken, DoctypeToken => true
  | _, _ => false
  end.

Record Attribute := mkAttr { Key : string; Val : string }.

Record Token := mkToken {
  Type' : TokenType;
  Data : string;
  Attr : list Attribute
}.
End Html.
Import Html.

(** ** GetLinks *)
Definition marker : string := "col-lg-3 gamebox".

Record LinkState := mkLinkState {
  links : list string;
  inActiveSession : bool;
  divDepth : Z
}.

Definition is_marker (a : Attribute) : bool :=
  String.eqb (Key a) "class" && String.eqb (Val a) marker.

(** one iteration of [GetLinks]' loop on a token that is not an ErrorToken *)
Definition links_step (st : LinkState) (token : Token) : LinkState :=
  let tt := Type' token in
  let '(ina, depth) :=
    if tt_eqb tt StartTagToken && String.eqb (Data token) "div" then
      let '(ina, depth) :=
        if existsb is_marker (Attr token) then (true, 1)
        else (inActiveSession st, divDepth st) in
      if ina && negb (String.eqb (Data token) "div" && (depth =? 1))
      then (ina, depth + 1) else (ina, depth)
    else (inActiveSession st, divDepth st) in
  let '(ina, depth) :=
    if tt_eqb tt EndTagToken && String.eqb (Data token) "div" then
      if ina then
        let depth := depth - 1 in
        ((if depth =? 0 then false else ina), depth)
      else (ina, depth)
    else (ina, depth) in
  let new :=
    if ina && tt_eqb tt StartTagToken && String.eqb (Data token) "a" then
      map Val (filter (fun a => String.eqb (Key a) "href") (Attr token))
    else [] in
  mkLinkState (links st ++ new) ina depth.

Fixpoint links_loop (st : LinkState) (toks : list Token) : list string :=
  match toks with
  | [] => links st
  | t :: ts =>
      if tt_eqb (Type' t) ErrorToken then links st
      else links_loop (links_step st t) ts
  end.

(** [GetLinks] on the landing page's tokens *)
Definition GetLinks (page : list Token) : list string :=
  links_loop (mkLinkState [] false 0) page.

(** ** ExtractTables *)
Record TableState := mkTableState {
  tables : list table;
  currentTable : table;
  currentRow : list string;
  inTable : bool;
  inRow : bool;
  inCell : bool
}.

Definition tables_step (st : TableState) (t : Token) : TableState :=
  let '(mkTableState ts ct cr itab irow icell) := st in
  match Type' t with
  | StartTagToken =>
      if String.eqb (Data t) "table" then mkTableState ts [] cr true irow icell
      else if String.eqb (Data t) "tr" then
        (if itab then mkTableState ts ct [] itab true icell else st)
      else if String.eqb (Data t) "td" || String.eqb (Data t) "th" then
        (if irow then mkTableState ts ct cr itab irow true else st)
      else st
  | EndTagToken =>
      if String.eqb (Data t) "td" || String.eqb (Data t) "th" then
        mkTableState ts ct cr itab irow false
      else if String.eqb (Data t) "tr" then
        (if irow then mkTableState ts (ct ++ [cr]) cr itab false icell else st)
      else if String.eqb (Data t) "table" then
        (if itab then mkTableState (ts ++ [ct]) ct cr false irow icell else st)
      else st
  | TextToken =>
      if icell then
        let txt := TrimSpace (Data t) in
        if String.eqb txt "" then st else mkTableState ts ct (cr ++ [txt]) itab irow icell
      else st
  | _ => st
  end.

Fixpoint tables_loop (st : TableState) (toks : list Token) : list table :=
  match toks with
  | [] => tables st
  | t :: ts =>
      if tt_eqb (Type' t) ErrorToken then tables st
      else tables_loop (tables_step st t) ts
  end.

Definition ExtractTables (page : list Token) : list table :=
  tables_loop (mkTableState [] [] [] false false false) page.

(** ** Fetching a game page

    What [http.Get(url)] followed by [io.ReadAll(resp.Body)] yields for a
    link: a transport error, an error while reading the body, or the page. *)
Inductive Fetch :=
| TransportError
| ReadError
| Page (toks : list Token).

(** [GamePage]: [log.Fatal] on a transport error; otherwise the body and
    the read error, if any *)
Definition GamePage (f : Fetch) : outcome (list Token * bool) :=
  match f with
  | TransportError => Exited
  | ReadError => Normal ([], true)
  | Page toks => Normal (toks, false)
  end.

(** [ParseGame]: a read error is printed and [nil] is returned *)
Definition ParseGame (f : Fetch) : outcome (list table) :=
  match GamePage f with
  | Normal (_, true) => Normal []
  | Normal (toks, false) => Normal (ExtractTables toks)
  | Panicked => Panicked
  | Exited => Exited
  end.

(** [exctractGameName] *)
Definition exctractGameName (url : string) : string :=
  let parts := Split (Trim url "/"%char) "/"%char in
  if (1 <? List.length parts)%nat then
    replace_char "-"%char " "%char (last parts EmptyString)
  else url.

Section Main.
Variable scan : float_scanner.

(** the body of the goroutine started for link [l], given what fetching
    [l] yields; its result is the Game appended under the mutex *)
Definition task (l : string) (f : Fetch) : outcome Game :=
  match ParseGame f with
  | Normal tables => BuildGame scan tables (exctractGameName l) l
  | Panicked => Panicked
  | Exited => Exited
  end.

(** all the goroutines of [main]; a panic or an exit in any of them ends
    the process.  The order in which games are appended depends on the
    schedule; the list is sorted before it is written. *)
Fixpoint run_tasks (fetch : string -> Fetch) (ls : list string)
  : outcome (list Game) :=
  match ls with
  | [] => Normal []
  | l :: ls' =>
      match task l (fetch l) with
      | Normal g =>
          match run_tasks fetch ls' with
          | Normal gs => Normal (g :: gs)
          | Panicked => Panicked
          | Exited => Exited
          end
      | Panicked => Panicked
      | Exited => Exited
      end
  end.
End Main.

(** ** sort.Slice

    [sort.Slice] is modelled by an insertion sort with the same [less]
    function; for a [less] that is a strict weak order every sort the
    library may use agrees with it up to the order of equivalent items. *)
Section Sort.
Context {A : Type}.
Variable less : A -> A -> bool.

Fixpoint insert_by (x : A) (l : list A) : list A :=
  match l with
  | [] => [x]
  | y :: l' => if less x y then x :: l else y :: insert_by x l'
  end.

Definition sort_slice (l : list A) : list A := fold_right insert_by [] l.
End Sort.

(** [sort.Slice(games, func(i, j) bool { return games[i].EV() > games[j].EV() })] *)
Definition sort_games (games : list Game) : list Game :=
  sort_slice (fun a b => F64.gt (EV a) (EV b)) games.

(** the EV column of the rows [WriteCSV] writes, in order *)
Definition report_EVs (games : list Game) : list float64 :=
  map EV (sort_games games).

(** ** The goroutine pool of [main]

    [sem] is a buffered channel of capacity 75: the orchestrator sends one
    token before starting each goroutine and each goroutine receives one
    when it ends; after the loop the orchestrator sends [cap(sem)] more
    tokens.  A send blocks while the buffer is full.  The state counts the
    links still to launch, the goroutines running, those finished, the
    tokens in the buffer and the tokens sent by the final loop. *)
Module Pool.
Definition capacity : nat := 75.

Inductive Phase := Launching | Draining | Sorting.

Record State := mkState {
  todo : nat;
  running : nat;
  finished : nat;
  buffered : nat;
  drained : nat;
  phase : Phase
}.

Definition init (n : nat) : State := mkState n 0 0 0 0 Launching.

Inductive step : State -> State -> Prop :=
(* [sem <- struct{}{}] then [go func(...)] *)
| step_launch k r f b :
    (b < capacity)%nat ->
    step (mkState (S k) r f b 0 Launching) (mkState k (S r) f (S b) 0 Launching)
(* the range loop ends *)
| step_loop_end r f b :
    step (mkState 0 r f b 0 Launching) (mkState 0 r f b 0 Draining)
(* a goroutine returns and its deferred [<-sem] runs *)
| step_finish t r f b d ph :
    (0 < b)%nat ->
    step (mkState t (S r) f b d ph) (mkState t r (S f) (b - 1) d ph)
(* one send of the final [for i := 0; i < cap(sem); i++] loop *)
| step_drain r f b d :
    (d < capacity)%nat -> (b < capacity)%nat ->
    step (mkState 0 r f b d Draining) (mkState 0 r f (S b) (S d) Draining)
(* the final loop ends: sorting and writing start *)
| step_drain_end r f b :
    step (mkState 0 r f b capacity Draining) (mkState 0 r f b capacity Sorting).

Inductive reachable (n : nat) : State -> Prop :=
| reach_init : reachable n (init n)
| reach_step s s' : reachable n s -> step s s' -> reachable n s'.

(** the counting invariant *)
Definition inv (n : nat) (s : State) : Prop :=
  buffered s = (running s + drained s)%nat /\
  (buffered s <= capacity)%nat /\
  (todo s + running s + finished s = n)%nat /\
  (phase s = Launching -> drained s = 0%nat) /\
  (phase s <> Launching -> todo s = 0%nat) /\
  (phase s = Sorting -> drained s = capacity).
End Pool.

(** ** Reference definitions read from the spec *)

(** Link discovery as the spec describes it: once inside a marked
    container every nested div deepens the tracked depth, and capture stops
    when the container's own closing tag brings the depth back to zero. *)
Definition spec_links_step (st : LinkState) (t : Token) : LinkState :=
  let '(mkLinkState ls ina d) := st in
  if tt_eqb (Type' t) StartTagToken && String.eqb (Data t) "div" then
    if ina then mkLinkState ls true (d + 1)
    else if existsb is_marker (Attr t) then mkLinkState ls true 1
    else st
  else if tt_eqb (Type' t) EndTagToken && String.eqb (Data t) "div" then
    if ina then mkLinkState ls (negb (d - 1 =? 0)) (d - 1) else st
  else if ina && tt_eqb (Type' t) StartTagToken && String.eqb (Data t) "a" then
    mkLinkState (ls ++ map Val (filter (fun a => String.eqb (Key a) "href") (Attr t))) ina d
  else st.

Definition spec_links (page : list Token) : list string :=
  links (fold_left spec_links_step page (mkLinkState [] false 0)).

(** EV as the spec describes it: the tiers with a positive remaining count
    and a positive value, each weighted by remainingCount / RemainingTickets *)
Definition contributing (p : PrizeTier) : bool :=
  (0 <? RemainingCount p) && (0 <? Value p).

Definition weighted_sum (remainingTickets : Z) (tiers : list PrizeTier) : float64 :=
  fold_left
    (fun acc p =>
       F64.add acc
         (F64.mul (F64.div (F64.of_int (RemainingCount p)) (F64.of_int remainingTickets))
            (F64.of_int (Value p))))
    (filter contributing tiers) F64.zero.

Definition EV_spec (g : Game) : float64 :=
  let rt := F64.to_int (F64.Round (F64.mul (Odds g) (F64.of_int (TotalRemainingPrizes g)))) in
  if rt =? 0 then F64.of_int (Price g)
  else F64.sub (F64.of_int (Price g)) (weighted_sum rt (PrizeTiers g)).

(** Decimal numerals, as the spec speaks of them *)
Fixpoint count_char (c : ascii) (s : string) : nat :=
  match s with
  | EmptyString => 0
  | String x s' => (if Ascii.eqb x c then 1 else 0) + count_char c s'
  end.

Fixpoint all_digits (s : string) : bool :=
  match s with
  | EmptyString => true
  | String c s' => match digit c with Some _ => all_digits s' | None => false end
  end.

Fixpoint decimal_value (s : string) : Z :=
  match s with
  | EmptyString => 0
  | String c s' =>
      match digit c with Some d => d | None => 0 end * 10 ^ Z.of_nat (String.length s')
      + decimal_value s'
  end.

(** [t] is an optionally signed, non-empty run of decimal digits of value [v] *)
Definition numeral (t : string) (v : Z) : Prop :=
  exists sign ds,
    t = String.append sign ds /\
    (sign = EmptyString \/ sign = "+"%string \/ sign = "-"%string) /\
    ds <> EmptyString /\ all_digits ds = true /\
    v = (if String.eqb sign "-" then - decimal_value ds else decimal_value ds).




(** ** Fixtures *)
(** ** Well-formed games and the order of float64 values *)

(** a non-NaN float64 of sign [s]: a zero, an infinity or a finite value *)
Definition has_sign (s : bool) (x : float64) : Prop :=
  match x with
  | S754_zero b | S754_infinity b | S754_finite b _ _ => b = s
  | S754_nan => False
  end.

(** every int field holds a Go int (a value of the 64-bit range) *)
Definition wf_tier (p : PrizeTier) : Prop :=
  GoInt.in_range (Value p) /\ GoInt.in_range (OriginalCount p) /\
  GoInt.in_range (RemainingCount p).

Definition wf_game (g : Game) : Prop :=
  GoInt.in_range (Price g) /\ GoInt.in_range (GameNumber g) /\
  GoInt.in_range (TotalOriginalPrizes g) /\ GoInt.in_range (TotalRemainingPrizes g) /\
  Forall wf_tier (PrizeTiers g).

(** a lexicographic key on which [SFcompare] agrees for non-NaN values *)
Definition sf_key (x : float64) : Z * Z * Z :=
  match x with
  | S754_infinity true => (0, 0, 0)
  | S754_finite true m e => (1, - e, - Zpos m)
  | S754_zero _ => (2, 0, 0)
  | S754_finite false m e => (3, e, Zpos m)
  | S754_infinity false => (4, 0, 0)
  | S754_nan => (5, 0, 0)
  end.

Definition lex_compare (a b : Z * Z * Z) : comparison :=
  let '(a1, a2, a3) := a in
  let '(b1, b2, b3) := b in
  match Z.compare a1 b1 with
  | Eq => match Z.compare a2 b2 with Eq => Z.compare a3 b3 | c => c end
  | c => c
  end.

Definition lex_le (a b : Z * Z * Z) : Prop :=
  let '(a1, a2, a3) := a in
  let '(b1, b2, b3) := b in
  a1 < b1 \/ (a1 = b1 /\ (a2 < b2 \/ (a2 = b2 /\ a3 <= b3))).

Module Fixtures.
Local Open Scope string_scope.

Definition meta_fixture : table :=
[["Ticket Price"; "$5"]; ["Overall Odds"; "1:3.50"]; ["Launch Date"; "2023-01-01"]].

Definition prize_fixture : table :=
[["Prize"; "Total Prizes"; "Prizes Remaining"];
 ["$100"; "50"; "10"];
 ["2nd Chance"; "5"; "5"]].

Definition a_href (h : string) : Token := mkToken StartTagToken "a" [mkAttr "href" h].
Definition a_end : Token := mkToken EndTagToken "a" [].
Definition div_start (attrs : list Attribute) : Token := mkToken StartTagToken "div" attrs.
Definition div_end : Token := mkToken EndTagToken "div" [].
Definition marked_div : Token := div_start [mkAttr "class" marker].

(** a marked container with two anchors, and anchors outside it *)
Definition links_fixture : list Token :=
[a_href "/outside-1"; a_end;
 marked_div; a_href "/games/one"; a_end; a_href "/games/two"; a_end; div_end;
 a_href "/outside-2"; a_end].

(** a marked container whose first child is a div *)
Definition nested_page : list Token :=
[marked_div; div_start []; a_href "/games/inner"; a_end; div_end;
 a_href "/games/after"; a_end; div_end].

(** 3.5 as a float64 *)
Definition three_point_five : float64 := F64.div (F64.of_int 7) (F64.of_int 2).

(** a game whose odds cell read "1:Inf" and whose remaining counts add up
  to zero *)
Definition inf_odds_game : Game :=
mkGame "inf odds" 0 (S754_infinity false) "" 0
  [mkPrizeTier 1 1 1; mkPrizeTier 1 1 (-1)] 2 0 "/games/inf-odds".
(** two games for the report: EV 2 - (3/40)*5 = 1.625 and EV 5 - (1/4)*100 = -20 *)
Definition report_game_a : Game :=
mkGame "a" 2 (F64.of_int 4) "" 1 [mkPrizeTier 5 10 3] 10 10 "/games/a".
Definition report_game_b : Game :=
mkGame "b" 5 (F64.of_int 4) "" 2 [mkPrizeTier 100 1 1] 1 1 "/games/b".
End Fixtures.
Import Fixtures.

(** ** strconv.Itoa *)
Definition digit_char (d : Z) : ascii := ascii_of_nat (48 + Z.to_nat d).

(** the digit loop of [formatBits]: the decimal digits of [n] are put in
    front of [acc], the least significant first *)
Fixpoint utoa_loop (fuel : nat) (n : Z) (acc : string) : string :=
  match fuel with
  | O => acc
  | S f =>
      let acc := String (digit_char (n mod 10)) acc in
      if n <? 10 then acc else utoa_loop f (n / 10) acc
  end.

(** [strconv.FormatUint(u, 10)]: a number of [k] bits has at most [k] digits *)
Definition FormatUint (u : Z) : string :=
  utoa_loop (S (Z.to_nat (Z.log2 u))) u EmptyString.

(** [strconv.Itoa] *)
Definition Itoa (i : Z) : string :=
  if i <? 0 then String "-"%char (FormatUint (- i)) else FormatUint i.

(** ** encoding/csv's Writer (Comma ',', UseCRLF false) *)
Module Csv.
Local Open Scope string_scope.
Definition quote : ascii := "034"%char.
Definition comma : ascii := ","%char.
Definition nl : ascii := "010"%char.
Definition cr : ascii := "013"%char.

(** [unicode.IsSpace] of the rune [utf8.DecodeRuneInString] reads first:
    the ASCII spaces, U+0085, U+00A0, U+1680, U+2000..U+200A, U+2028,
    U+2029, U+202F, U+205F and U+3000, by their UTF-8 encodings *)
Definition first_rune_is_space (s : string) : bool :=
  match map nat_of_ascii (list_ascii_of_string s) with
  | [] => false
  | c :: rest =>
      if ((9 <=? c) && (c <=? 13) || (c =? 32))%nat then true
      else if (c =? 194)%nat then
        match rest with b :: _ => ((b =? 133) || (b =? 160))%nat | [] => false end
      else if (c =? 225)%nat then
        match rest with b1 :: b2 :: _ => ((b1 =? 154) && (b2 =? 128))%nat | _ => false end
      else if (c =? 226)%nat then
        match rest with
        | b1 :: b2 :: _ =>
            ((b1 =? 128) && (((128 <=? b2) && (b2 <=? 138)) || (b2 =? 168) ||
                             (b2 =? 169) || (b2 =? 175)) ||
             (b1 =? 129) && (b2 =? 159))%nat
        | _ => false
        end
      else if (c =? 227)%nat then
        match rest with b1 :: b2 :: _ => ((b1 =? 128) && (b2 =? 128))%nat | _ => false end
      else false
  end.

Definition special (c : ascii) : bool :=
  Ascii.eqb c nl || Ascii.eqb c cr || Ascii.eqb c quote || Ascii.eqb c comma.

(** [fieldNeedsQuotes] *)
Definition fieldNeedsQuotes (field : string) : bool :=
  if String.eqb field EmptyString then false
  else if String.eqb field "\."%string then true
  else existsb special (list_ascii_of_string field) || first_rune_is_space field.

(** the quoted form's body: each quote byte doubled, CR and LF kept *)
Fixpoint escape (s : string) : string :=
  match s with
  | EmptyString => EmptyString
  | String c s' =>
      if Ascii.eqb c quote then String quote (String quote (escape s'))
      else String c (escape s')
  end.

Definition write_field (field : string) : string :=
  if fieldNeedsQuotes field then String quote (escape field ++ String quote EmptyString)
  else field.

(** [Write(record)] of a csv.Writer: the bytes it adds to the output *)
Definition Write (record : list string) : string :=
  String.concat ","%string (map write_field record) ++ String nl EmptyString.

(** the bytes of several [Write] calls, flushed in order *)
Definition write_all (records : list (list string)) : string :=
  fold_right (fun r acc => Write r ++ acc) EmptyString records.

(** A reader of RFC 4180 records, used as the reference to read the
    output back: a field is either quoted, with the quote byte doubled
    inside, or a run of bytes other than comma, LF and the quote byte; a
    record ends at LF. *)
Fixpoint read_quoted (s : string) : option (string * string) :=
  match s with
  | EmptyString => None
  | String c s' =>
      if Ascii.eqb c quote then
        match s' with
        | String c2 s'' =>
            if Ascii.eqb c2 quote then
              option_map (fun '(f, r) => (String quote f, r)) (read_quoted s'')
            else Some (EmptyString, s')
        | EmptyString => Some (EmptyString, s')
        end
      else option_map (fun '(f, r) => (String c f, r)) (read_quoted s')
  end.

Fixpoint read_unquoted (s : string) : option (string * string) :=
  match s with
  | EmptyString => Some (EmptyString, EmptyString)
  | String c s' =>
      if Ascii.eqb c comma || Ascii.eqb c nl then Some (EmptyString, s)
      else if Ascii.eqb c quote then None
      else option_map (fun '(f, r) => (String c f, r)) (read_unquoted s')
  end.

Definition read_field (s : string) : option (string * string) :=
  match s with
  | String c s' => if Ascii.eqb c quote then read_quoted s' else read_unquoted s
  | EmptyString => Some (EmptyString, EmptyString)
  end.

Fixpoint read_fields (fuel : nat) (s : string) : option (list string * string) :=
  match fuel with
  | O => None
  | S fuel' =>
      match read_field s with
      | Some (f, String c r) =>
          if Ascii.eqb c comma then
            option_map (fun '(fs, rest) => (f :: fs, rest)) (read_fields fuel' r)
          else if Ascii.eqb c nl then Some ([f], r)
          else None
      | _ => None
      end
  end.

Definition read_record (s : string) : option (list string * string) :=
  read_fields (S (String.length s)) s.

Fixpoint read_records (fuel : nat) (s : string) : option (list (list string)) :=
  match s with
  | EmptyString => Some []
  | _ =>
      match fuel with
      | O => None
      | S fuel' =>
          match read_fields (S (String.length s)) s with
          | Some (r, rest) => option_map (cons r) (read_records fuel' rest)
          | None => None
          end
      end
  end.

Definition ReadAll (s : string) : option (list (list string)) :=
  read_records (S (String.length s)) s.
End Csv.

(** ** WriteCSV and main *)
Definition csv_header : list string :=
  ["Name"; "Price"; "Odds"; "Launch Date"; "Original Winning Tickets";
   "Remaining Winning Tickets"; "Estimated Original Tickets";
   "Estimated Remaining Tickets"; "EV"; "URL"]%string.

(** [GetHTML]: either failure of the landing page fetch is fatal *)
Definition GetHTML (f : Fetch) : outcome (list Token) :=
  match f with
  | Page toks => Normal toks
  | TransportError | ReadError => Exited
  end.

Section Report.
Variable scan : float_scanner.
(** [fmt.Sprintf("%.2f", x)] *)
Variable Sprintf_2f : float64 -> string.

Definition csv_row (g : Game) : list string :=
  [Name g; Itoa (Price g); ("1:" ++ Sprintf_2f (Odds g))%string; LaunchDate g;
   Itoa (TotalOriginalPrizes g); Itoa (TotalRemainingPrizes g);
   Itoa (OriginalTickets g); Itoa (RemainingTickets g);
   Sprintf_2f (EV g); URL g].

(** [WriteCSV]: [create_ok] is whether [os.Create] succeeds; the result is
    the file's content, or [None] for the error returned; the writer's own
    errors are never looked at *)
Definition WriteCSV (create_ok : bool) (games : list Game) : option string :=
  if create_ok then Some (Csv.write_all (csv_header :: map csv_row games)) else None.

(** [main]: the landing page, what each link's fetch yields and whether the
    CSV file can be created; the result is the CSV written *)
Definition main (landing : Fetch) (fetch : string -> Fetch) (create_ok : bool)
  : outcome string :=
  match GetHTML landing with
  | Normal page =>
      match run_tasks scan fetch (GetLinks page) with
      | Normal games =>
          match WriteCSV create_ok (sort_games games) with
          | Some out => Normal out
          | None => Exited
          end
      | Panicked => Panicked
      | Exited => Exited
      end
  | Panicked => Panicked
  | Exited => Exited
  end.
End Report.

(** ** Inputs and observations for the properties below *)
Module Markup.
Local Open Scope string_scope.
(** the tokens of [<table><tr><td>c</td>...</tr>...</table>...] *)
Definition tag (tt : TokenType) (name : string) : Token := mkToken tt name [].
Definition text (s : string) : Token := mkToken TextToken s [].
Definition render_cell (c : string) : list Token :=
  [tag StartTagToken "td"; text c; tag EndTagToken "td"].
Definition render_row (r : list string) : list Token :=
  tag StartTagToken "tr" :: flat_map render_cell r ++ [tag EndTagToken "tr"].
Definition render_table (t : table) : list Token :=
  tag StartTagToken "table" :: flat_map render_row t ++ [tag EndTagToken "table"].
Definition render_tables (ts : list table) : list Token := flat_map render_table ts.
(** a row's cells as [ExtractTables] keeps them: trimmed, empty ones dropped *)
Definition clean_row (r : list string) : list string :=
  filter (fun c => negb (String.eqb c EmptyString)) (map TrimSpace r).
End Markup.

(** the href values of the anchor start tags of a page, in page order *)
Definition hrefs_of (t : Token) : list string :=
  if tt_eqb (Type' t) StartTagToken && String.eqb (Data t) "a" then
    map Val (filter (fun a => String.eqb (Key a) "href") (Attr t))
  else [].
Definition all_hrefs (page : list Token) : list string := flat_map hrefs_of page.

(** [l] is [l'] with some items left out, the others in order *)
Inductive subseq {A : Type} : list A -> list A -> Prop :=
| subseq_nil : subseq [] []
| subseq_skip x l l' : subseq l l' -> subseq l (x :: l')
| subseq_keep x l l' : subseq l l' -> subseq (x :: l) (x :: l').

(** a prize row as the prize table shows it: "$V", "O", "R" *)
Definition render_prize (p : PrizeTier) : list string :=
  [String "$"%char (Itoa (Value p)); Itoa (OriginalCount p); Itoa (RemainingCount p)].

(** the value cells of the rows [ParseMetaData]'s switch sends to each
    field, in table order *)
Definition meta_key (row : list string) : option (string * string) :=
  match row with k :: v :: _ => Some (ToLower k, v) | _ => None end.
Definition price_cells (t : table) : list string :=
  flat_map (fun row => match meta_key row with
                       | Some (k, v) => if Contains k "ticket price" then [v] else []
                       | None => [] end) t.
Definition odds_cells (t : table) : list string :=
  flat_map (fun row => match meta_key row with
                       | Some (k, v) =>
                           if negb (Contains k "ticket price") && Contains k "overall odds"
                           then [v] else []
                       | None => [] end) t.
Definition date_cells (t : table) : list string :=
  flat_map (fun row => match meta_key row with
                       | Some (k, v) =>
                           if negb (Contains k "ticket price") && negb (Contains k "overall odds")
                              && Contains k "launch date"
                           then [v] else []
                       | None => [] end) t.
Definition last_cell (l : list string) : option string := hd_error (rev l).
(** every byte of [s] is below 128: on such strings [strings.ToLower] only
    lowers 'A'..'Z' *)
Definition is_ascii_string (s : string) : bool :=
  forallb (fun c => (nat_of_ascii c <? 128)%nat) (list_ascii_of_string s).

(** the bytes of a price cell written as "$" followed by [strconv.Itoa]'s output *)
Definition price_cell_byte (c : ascii) : Prop :=
  digit c <> None \/ c = "-"%char \/ c = "$"%char.

Module ReportFixtures.
Local Open Scope string_scope.
(** a game page holding the metadata and prize tables of the spec's fixture *)
Definition game_page : list Token := Markup.render_tables [meta_fixture; prize_fixture].
Definition fetch_game_page (url : string) : Fetch := Page game_page.
(** a stand-in for fmt's %.2f *)
Definition sprintf_stub (x : float64) : string := "0.00".
(** anchors, but no marked container *)
Definition unmarked_page : list Token :=
[a_href "/games/one"; a_end; div_start []; a_href "/games/two"; a_end; div_end].
(** a game whose odds cell did not parse *)
Definition zero_odds_game : Game :=
mkGame "z" 5 F64.zero "" 0 [mkPrizeTier 100 50 10] 50 10 "/games/z".
(** a game whose tiers are all sold out or worth nothing *)
Definition spent_game : Game :=
mkGame "s" 3 (F64.of_int 4) "" 0 [mkPrizeTier 0 5 5; mkPrizeTier 10 3 0] 8 5 "/games/s".
Definition sample_tiers : list PrizeTier :=
[mkPrizeTier 1000 50 10; mkPrizeTier (-5) 0 3].
End ReportFixtures.
Import ReportFixtures.

(** * Theorems *)

Lemma run_tasks_crash (scan : float_scanner) (fetch : string -> Fetch)
  (ls : list string) (l : string) :
  In l ls ->
  task scan l (fetch l) = Panicked \/ task scan l (fetch l) = Exited ->
  forall gs, run_tasks scan fetch ls <> Normal gs.
Proof.
  induction ls as [|l' ls IH]; intros Hin Hcrash gs; [destruct Hin|].
  simpl. destruct Hin as [<-|Hin].
  - destruct Hcrash as [-> | ->]; discriminate.
  - destruct (task scan l' (fetch l')); try discriminate.
    destruct (run_tasks scan fetch ls) eqn:E; try discriminate.
    exfalso. exact (IH Hin Hcrash a0 eq_refl).
Qed.

(** C1 (code_bug): a failing fetch of a game page never leaves the run
    going: a transport error ends the process through log.Fatal in
    [GamePage], and a body read error makes [ParseGame] return nil tables, on
    which [BuildGame] panics; either way the whole run crashes. *)
Theorem fetch_failure_crashes_run (scan : float_scanner) :
  (forall l, task scan l TransportError = Exited) /\
  (forall l, task scan l ReadError = Panicked) /\
  (forall fetch ls l, In l ls ->
     fetch l = TransportError \/ fetch l = ReadError ->
     forall gs, run_tasks scan fetch ls <> Normal gs).
Proof.
  split; [reflexivity|]. split; [reflexivity|].
  intros fetch ls l Hin Hf. apply (run_tasks_crash scan fetch ls l Hin).
  destruct Hf as [-> | ->]; [right | left]; reflexivity.
Qed.

Lemma fetch_failure_crashes_run_witness :
  In "/games/a"%string ["/games/a"%string] /\
  (forall gs, run_tasks scan_decimal (fun _ => TransportError) ["/games/a"%string] <> Normal gs).
Proof.
  split; [left; reflexivity|].
  apply (proj2 (proj2 (fetch_failure_crashes_run scan_decimal))
           (fun _ => TransportError) ["/games/a"%string] "/games/a"%string).
  - left; reflexivity.
  - left; reflexivity.
Defined.

(** The fixture of the spec: a marked container with two anchors, and two
    anchors outside it; exactly the two inside are returned. *)
Example GetLinks_fixture :
  GetLinks links_fixture = ["/games/one"%string; "/games/two"%string].
Proof. reflexivity. Qed.

(** C2 (code_bug): a div opened while the depth is 1 is not counted
    (the guard meant to skip the marked div itself also skips it), so its
    closing tag brings the depth to zero and capture stops inside the marked
    container: an anchor after a first nested div is lost, where the spec's
    depth tracking keeps it. *)
Theorem GetLinks_first_nested_div : 
  GetLinks nested_page = ["/games/inner"%string] /\
  spec_links nested_page = ["/games/inner"%string; "/games/after"%string].
Proof. split; reflexivity. Qed.

(** C4: with a ParseFloat that reads "3.50" as 3.5 (as strconv does), the
    fixture tables give Price 5, Odds 3.5, LaunchDate "2023-01-01", the one
    tier {100, 50, 10} (the "2nd Chance" row is skipped, matched on the
    lower-cased first cell) and totals 50 and 10. *)
Theorem BuildGame_fixture (scan : float_scanner) (name url : string)
  (H : scan "3.50"%string = Some (three_point_five, false)) :
  BuildGame scan [meta_fixture; prize_fixture] name url =
  Normal (mkGame name 5 three_point_five "2023-01-01" 0
            [mkPrizeTier 100 50 10] 50 10 url).
Proof.
  vm_compute. rewrite H. vm_compute. reflexivity.
Qed.

Lemma BuildGame_fixture_witness :
  scan_decimal "3.50"%string = Some (three_point_five, false) /\
  BuildGame scan_decimal [meta_fixture; prize_fixture] "Lucky 7s"%string "/games/lucky-7s"%string =
  Normal (mkGame "Lucky 7s" 5 three_point_five "2023-01-01" 0
            [mkPrizeTier 100 50 10] 50 10 "/games/lucky-7s").
Proof.
  split; [vm_compute; reflexivity|].
  apply BuildGame_fixture. vm_compute. reflexivity.
Defined.

(** C5: with fewer than two tables, or an empty second table, [BuildGame]
    panics instead of returning a zero-valued Game; a page whose body read
    fails gives nil tables, so such a link crashes the whole run. *)
Theorem BuildGame_panics (scan : float_scanner) :
  (forall tables name url,
     (List.length tables < 2)%nat \/ nth_error tables 1 = Some [] ->
     BuildGame scan tables name url = Panicked) /\
  ParseGame ReadError = Normal [] /\
  (forall l, task scan l ReadError = Panicked) /\
  (forall fetch ls l, In l ls -> fetch l = ReadError ->
     forall gs, run_tasks scan fetch ls <> Normal gs).
Proof.
  split; [|split; [reflexivity|split; [reflexivity|]]].
  - intros tables name url H.
    destruct tables as [|t0 [|t1 rest]]; try reflexivity.
    destruct H as [H|H]; [simpl in H; lia|].
    simpl in H. injection H as ->. unfold BuildGame.
    destruct (ParseMetaData scan t0) as [[p o] d]. reflexivity.
  - intros fetch ls l Hin Hf. apply (run_tasks_crash scan fetch ls l Hin).
    left. rewrite Hf. reflexivity.
Qed.

Lemma BuildGame_panics_witness :
  (List.length [meta_fixture] < 2)%nat /\
  BuildGame scan_decimal [meta_fixture] "x"%string "/x"%string = Panicked.
Proof.
  split; [simpl; lia|].
  apply (proj1 (BuildGame_panics scan_decimal)). left. simpl. lia.
Defined.

(** ** odds *)

Lemma Split_length (c : ascii) (s : string) :
  List.length (Split s c) = S (count_char c s).
Proof.
  induction s as [|x s IH]; [reflexivity|]. simpl.
  destruct (Split s c) as [|p ps] eqn:E; [discriminate|].
  destruct (Ascii.eqb x c); simpl in *; lia.
Qed.

Lemma Split_no_sep (c : ascii) (s : string) :
  count_char c s = 0%nat -> Split s c = [s].
Proof.
  induction s as [|x s IH]; [reflexivity|]. simpl.
  destruct (Ascii.eqb x c); [discriminate|]. simpl. intros H.
  rewrite (IH H). reflexivity.
Qed.

Lemma Split_sep (c : ascii) (a b : string) :
  count_char c a = 0%nat -> Split (String.append a (String c b)) c = a :: Split b c.
Proof.
  induction a as [|x a IH]; simpl.
  - rewrite Ascii.eqb_refl. reflexivity.
  - destruct (Ascii.eqb x c); [discriminate|]. simpl. intros H.
    rewrite (IH H). reflexivity.
Qed.

(** C7: for a colon-free [X], [parseOdds("1:" + X)] is the value
    ParseFloat gives for [X]; a string without exactly one colon gives 0.0;
    and a right-hand side ParseFloat rejects as malformed gives 0.0. *)
Theorem parseOdds_spec (scan : float_scanner) :
  (forall X, count_char ":" X = 0%nat ->
     parseOdds scan (String.append "1:" X) = fst (ParseFloat scan X)) /\
  (forall s, count_char ":" s <> 1%nat -> parseOdds scan s = F64.zero) /\
  (forall a b, count_char ":" a = 0%nat -> count_char ":" b = 0%nat ->
     scan b = None -> parseOdds scan (String.append a (String ":" b)) = F64.zero).
Proof.
  split; [|split].
  - intros X HX. unfold parseOdds.
    change (String.append "1:" X) with (String.append "1" (String ":" X)).
    rewrite Split_sep by reflexivity. rewrite (Split_no_sep _ _ HX). reflexivity.
  - intros s Hs. unfold parseOdds. rewrite Split_length.
    destruct (count_char ":" s) as [|[|n]]; try reflexivity. contradiction.
  - intros a b Ha Hb Hscan. unfold parseOdds.
    rewrite (Split_sep _ _ _ Ha), (Split_no_sep _ _ Hb). simpl.
    unfold ParseFloat. rewrite Hscan. reflexivity.
Qed.

Lemma parseOdds_spec_witness :
  count_char ":" "3.50" = 0%nat /\
  parseOdds scan_decimal "1:3.50" = fst (ParseFloat scan_decimal "3.50").
Proof.
  split; [reflexivity|].
  apply (proj1 (parseOdds_spec scan_decimal)). reflexivity.
Defined.

(** ** prices *)

Lemma digit_range (c : ascii) (d : Z) : digit c = Some d -> 0 <= d <= 9.
Proof.
  unfold digit. destruct ((48 <=? nat_of_ascii c)%nat && (nat_of_ascii c <=? 57)%nat) eqn:E;
    [|discriminate].
  intros H; injection H as <-. apply andb_prop in E as [E1 E2].
  apply Nat.leb_le in E1, E2. lia.
Qed.

Lemma digit_not_sign (c : ascii) (d : Z) :
  digit c = Some d -> Ascii.eqb c "-"%char = false /\ Ascii.eqb c "+"%char = false.
Proof.
  intros H. split; destruct (Ascii.eqb_spec c "-"%char) as [->|];
    try destruct (Ascii.eqb_spec c "+"%char) as [->|]; try reflexivity;
    vm_compute in H; discriminate.
Qed.

Lemma decimal_value_nonneg (s : string) : 0 <= decimal_value s.
Proof.
  induction s as [|c s IH]; simpl; [lia|].
  destruct (digit c) eqn:E; [apply digit_range in E|]; nia.
Qed.

Lemma fast_digits_ok (s : string) (n : Z) :
  all_digits s = true ->
  fast_digits s n = Some (n * 10 ^ Z.of_nat (String.length s) + decimal_value s).
Proof.
  revert n. induction s as [|c s IH]; intros n H;
    cbn [fast_digits all_digits decimal_value String.length] in *.
  - f_equal. lia.
  - destruct (digit c) as [d|]; [|discriminate].
    rewrite (IH _ H). f_equal. rewrite Nat2Z.inj_succ, Z.pow_succ_r by lia. ring.
Qed.


Lemma uint_loop_ok (s : string) (n : Z) :
  all_digits s = true -> 0 <= n ->
  n * 10 ^ Z.of_nat (String.length s) + decimal_value s <= 2 ^ 63 ->
  uint_loop s n = (n * 10 ^ Z.of_nat (String.length s) + decimal_value s, None).
Proof.
  revert n. induction s as [|c s IH]; intros n H Hn Hb;
    cbn [uint_loop all_digits decimal_value String.length] in *.
  - f_equal. lia.
  - destruct (digit c) as [d|] eqn:Ed; [|discriminate].
    apply digit_range in Ed.
    pose proof (decimal_value_nonneg s) as Hv.
    rewrite Nat2Z.inj_succ, Z.pow_succ_r in Hb by lia.
    assert (Hp : 0 < 10 ^ Z.of_nat (String.length s)) by (apply Z.pow_pos_nonneg; lia).
    assert (n * 10 + d <= 2 ^ 63) by nia.
    assert (n * 10 <= 2 ^ 63) by nia.
    change cutoff10 with 1844674407370955162. change maxUint64 with 18446744073709551615.
    destruct (Z.leb_spec 1844674407370955162 n); [lia|].
    destruct (Z.ltb_spec 18446744073709551615 (n * 10 + d)); [lia|].
    rewrite IH by (auto; nia). f_equal.
    rewrite Nat2Z.inj_succ, Z.pow_succ_r by lia. ring.
Qed.

Lemma Atoi_numeral (t : string) (v : Z) :
  numeral t v -> GoInt.in_range v -> fst (Atoi t) = v.
Proof.
  intros (sign & ds & -> & Hsign & Hne & Hdig & ->) Hr.
  unfold GoInt.in_range, GoInt.int_min, GoInt.int_max in Hr.
  destruct ds as [|d0 ds']; [contradiction|].
  pose proof (Hdig) as Hd. cbn [all_digits] in Hd.
  destruct (digit d0) as [d|] eqn:Ed; [|discriminate].
  destruct (digit_not_sign _ _ Ed) as [Hm Hp].
  pose proof (decimal_value_nonneg (String d0 ds')) as Hv.
  assert (Hfast := fast_digits_ok _ 0 Hdig). rewrite Z.mul_0_l, Z.add_0_l in Hfast.
  destruct Hsign as [-> | [-> | ->]]; cbn [String.append] in *;
    [change (String.eqb "" "-") with false in * |
     change (String.eqb "+" "-") with false in * |
     change (String.eqb "-" "-") with true in *]; cbv iota in Hr |- *.
  - assert (Hslow : uint_loop (String d0 ds') 0 = (decimal_value (String d0 ds'), None)).
    { rewrite uint_loop_ok by (first [assumption | lia]); f_equal; lia. }
    unfold Atoi. destruct (_ && _).
    + rewrite Hm, Hp. cbn [orb andb negb]. rewrite Hfast. reflexivity.
    + unfold ParseInt. rewrite Hp, Hm. unfold ParseUint. rewrite Hslow.
      destruct (Z.leb_spec (2 ^ 63) (decimal_value (String d0 ds'))); [lia|]. reflexivity.
  - assert (Hslow : uint_loop (String d0 ds') 0 = (decimal_value (String d0 ds'), None)).
    { rewrite uint_loop_ok by (first [assumption | lia]); f_equal; lia. }
    unfold Atoi. destruct (_ && _).
    + cbn -[fast_digits]. rewrite Hfast. reflexivity.
    + unfold ParseInt. cbn [Ascii.eqb Bool.eqb]. unfold ParseUint. rewrite Hslow.
      destruct (Z.leb_spec (2 ^ 63) (decimal_value (String d0 ds'))); [lia|]. reflexivity.
  - assert (Hslow : uint_loop (String d0 ds') 0 = (decimal_value (String d0 ds'), None)).
    { rewrite uint_loop_ok by (first [assumption | lia]); f_equal; lia. }
    unfold Atoi. destruct (_ && _).
    + cbn -[fast_digits]. rewrite Hfast. reflexivity.
    + unfold ParseInt. cbn [Ascii.eqb Bool.eqb]. unfold ParseUint. rewrite Hslow.
      destruct (Z.ltb_spec (2 ^ 63) (decimal_value (String d0 ds'))); [lia|]. reflexivity.
Qed.







(** ** prize totals *)

Lemma wrap_add_l (a b : Z) : GoInt.wrap (GoInt.wrap a + b) = GoInt.wrap (a + b).
Proof.
  unfold GoInt.wrap.
  replace ((a + 2 ^ 63) mod 2 ^ 64 - 2 ^ 63 + b + 2 ^ 63)
    with ((a + 2 ^ 63) mod 2 ^ 64 + b) by ring.
  rewrite Zplus_mod_idemp_l. f_equal. f_equal. ring.
Qed.

Lemma wrap_small (z : Z) : GoInt.in_range z -> GoInt.wrap z = z.
Proof.
  unfold GoInt.in_range, GoInt.int_min, GoInt.int_max, GoInt.wrap. intros H.
  rewrite Z.mod_small; lia.
Qed.

Lemma fold_wrap (f : PrizeTier -> Z) (ps : list PrizeTier) (a : Z) :
  fold_left (fun acc p => GoInt.add acc (f p)) ps (GoInt.wrap a) =
  GoInt.wrap (a + fold_right Z.add 0 (map f ps)).
Proof.
  revert a. induction ps as [|p ps IH]; intros a; simpl.
  - f_equal. ring.
  - unfold GoInt.add at 2. rewrite wrap_add_l, IH. f_equal. ring.
Qed.

Lemma fold_wrap_0 (f : PrizeTier -> Z) (ps : list PrizeTier) :
  fold_left (fun acc p => GoInt.add acc (f p)) ps 0 =
  GoInt.wrap (fold_right Z.add 0 (map f ps)).
Proof.
  pose proof (fold_wrap f ps 0) as H.
  change (GoInt.wrap 0) with 0 in H. exact H.
Qed.

Lemma insert_by_perm {A} (less : A -> A -> bool) (x : A) (l : list A) :
  Permutation (insert_by less x l) (x :: l).
Proof.
  induction l as [|y l IH]; simpl; [reflexivity|].
  destruct (less x y); [reflexivity|].
  rewrite IH. apply perm_swap.
Qed.

Lemma sort_slice_perm {A} (less : A -> A -> bool) (l : list A) :
  Permutation (sort_slice less l) l.
Proof.
  induction l as [|x l IH]; simpl; [reflexivity|].
  unfold sort_slice in *. simpl. rewrite insert_by_perm, IH. reflexivity.
Qed.

(** C9 (corrected): the totals of a built Game are the sums of the tier
    counts taken in Go's 64-bit int arithmetic, hence the plain sums when
    these lie in the int range; sorting only reorders the games, so no later
    step changes them. *)
Theorem BuildGame_totals :
  (forall scan tables name url g,
     BuildGame scan tables name url = Normal g ->
     TotalOriginalPrizes g = GoInt.wrap (fold_right Z.add 0 (map OriginalCount (PrizeTiers g))) /\
     TotalRemainingPrizes g = GoInt.wrap (fold_right Z.add 0 (map RemainingCount (PrizeTiers g))) /\
     (GoInt.in_range (fold_right Z.add 0 (map OriginalCount (PrizeTiers g))) ->
      TotalOriginalPrizes g = fold_right Z.add 0 (map OriginalCount (PrizeTiers g))) /\
     (GoInt.in_range (fold_right Z.add 0 (map RemainingCount (PrizeTiers g))) ->
      TotalRemainingPrizes g = fold_right Z.add 0 (map RemainingCount (PrizeTiers g)))) /\
  (forall games, Permutation (sort_games games) games).
Proof.
  split; [|intros; apply sort_slice_perm].
  intros scan tables name url g H.
  destruct tables as [|meta [|pt rest]]; try discriminate.
  unfold BuildGame in H. destruct (ParseMetaData scan meta) as [[p o] d].
  destruct (ParsePrizes pt) as [ts| |]; try discriminate.
  injection H as <-. cbn [TotalOriginalPrizes TotalRemainingPrizes PrizeTiers].
  unfold sum_original, sum_remaining. rewrite !fold_wrap_0.
  split; [reflexivity|]. split; [reflexivity|].
  split; intros Hr; apply wrap_small; exact Hr.
Qed.

Lemma BuildGame_totals_witness :
  BuildGame scan_decimal [meta_fixture; prize_fixture] "g"%string "/g"%string =
    Normal (mkGame "g" 5 three_point_five "2023-01-01" 0 [mkPrizeTier 100 50 10] 50 10 "/g") /\
  TotalOriginalPrizes (mkGame "g" 5 three_point_five "2023-01-01" 0 [mkPrizeTier 100 50 10] 50 10 "/g")
    = GoInt.wrap 50.
Proof.
  split; [vm_compute; reflexivity|].
  exact (proj1 (proj1 BuildGame_totals scan_decimal [meta_fixture; prize_fixture] "g"%string
    "/g"%string _ ltac:(vm_compute; reflexivity))).
Defined.

(** C9: two tier counts whose sum leaves the int range: the total wraps
    around and differs from the sum. *)
Lemma BuildGame_totals_wrap :
  exists g,
    BuildGame scan_decimal
      [meta_fixture; [["Prize"; "Total"; "Remaining"]; ["$1"; "9,223,372,036,854,775,807"; "0"];
                      ["$2"; "1"; "0"]]%string] "g"%string "/g"%string = Normal g /\
    TotalOriginalPrizes g <> fold_right Z.add 0 (map OriginalCount (PrizeTiers g)).
Proof.
  exists (mkGame "g" 5 three_point_five "2023-01-01" 0
            [mkPrizeTier 1 9223372036854775807 0; mkPrizeTier 2 1 0]
            (- 9223372036854775808) 0 "/g").
  split; [vm_compute; reflexivity | vm_compute; discriminate].
Qed.

(** ** the goroutine pool *)

Lemma Pool_inv_step (n : nat) (s s' : Pool.State) :
  Pool.inv n s -> Pool.step s s' -> Pool.inv n s'.
Proof.
  unfold Pool.inv. intros (Hb & Hcap & Hn & Hl & Hnl & Hs) Hst.
  destruct Hst; cbn [Pool.buffered Pool.running Pool.drained Pool.todo Pool.finished Pool.phase] in *;
    repeat split; intros; try (exfalso; congruence); try lia; auto.
Qed.

Lemma Pool_inv_reachable (n : nat) (s : Pool.State) :
  Pool.reachable n s -> Pool.inv n s.
Proof.
  induction 1 as [|s s' _ IH Hst].
  - unfold Pool.inv, Pool.init; cbn. repeat split; intros; try (exfalso; congruence); lia.
  - exact (Pool_inv_step n s s' IH Hst).
Qed.

(** C10: with [n] links and 75 slots, at most 75 goroutines run at any
    time, and when sorting starts all [n] have finished. *)
Theorem Pool_bounded_and_joined (n : nat) (s : Pool.State) :
  Pool.reachable n s ->
  (Pool.running s <= Pool.capacity)%nat /\
  (Pool.phase s = Pool.Sorting -> Pool.finished s = n /\ Pool.running s = 0%nat).
Proof.
  intros H. destruct (Pool_inv_reachable n s H) as (Hb & Hcap & Hn & Hl & Hnl & Hs).
  split; [lia|]. intros Hph.
  specialize (Hs Hph). assert (Hph' : Pool.phase s <> Pool.Launching) by (rewrite Hph; discriminate).
  specialize (Hnl Hph'). lia.
Qed.

Lemma Pool_bounded_and_joined_witness :
  Pool.reachable 1 (Pool.mkState 0 0 1 75 75 Pool.Sorting) /\
  Pool.finished (Pool.mkState 0 0 1 75 75 Pool.Sorting) = 1%nat.
Proof.
  assert (H : Pool.reachable 1 (Pool.mkState 0 0 1 75 75 Pool.Sorting)).
  { apply (Pool.reach_step _ (Pool.mkState 0 0 1 75 75 Pool.Draining)); [|constructor].
    repeat match goal with
      | |- Pool.reachable _ (Pool.mkState 0 0 1 (S ?b) (S ?d) Pool.Draining) =>
          apply (Pool.reach_step _ (Pool.mkState 0 0 1 b d Pool.Draining));
          [|apply Pool.step_drain; cbv; lia]
      end.
    apply (Pool.reach_step _ (Pool.mkState 0 0 1 0 0 Pool.Launching)); [|constructor].
    apply (Pool.reach_step _ (Pool.mkState 0 1 0 1 0 Pool.Launching));
      [|apply (Pool.step_finish 0 0 0 1 0 Pool.Launching); lia].
    apply (Pool.reach_step _ (Pool.init 1)); [constructor|].
    apply Pool.step_launch. cbv; lia. }
  split; [exact H|].
  exact (proj1 (proj2 (Pool_bounded_and_joined 1 _ H) eq_refl)).
Defined.

(** ** EV *)

Lemma ev_loop_filter (rt : Z) (ps : list PrizeTier) (acc : float64) :
  fold_left (ev_step rt) ps acc =
  fold_left
    (fun acc p =>
       F64.add acc
         (F64.mul (F64.div (F64.of_int (RemainingCount p)) (F64.of_int rt))
            (F64.of_int (Value p))))
    (filter contributing ps) acc.
Proof.
  revert acc. induction ps as [|p ps IH]; intros acc; [reflexivity|].
  cbn [fold_left filter]. unfold ev_step at 2, contributing at 1.
  rewrite !Z.ltb_antisym.
  destruct (RemainingCount p <=? 0), (Value p <=? 0); cbn [negb orb andb fold_left]; apply IH.
Qed.

(** C3 (corrected): EV is the spec's definition; when the remaining total
    is 0 and the odds are finite, EV is the price; when RemainingTickets is
    not 0, EV is the price minus the weighted sum. *)
Theorem EV_reference :
  (forall g, EV g = EV_spec g) /\
  (forall g, F64.is_finite (Odds g) = true -> TotalRemainingPrizes g = 0 ->
     EV g = F64.of_int (Price g)) /\
  (forall g W, RemainingTickets g <> 0 ->
     weighted_sum (RemainingTickets g) (PrizeTiers g) = W ->
     EV g = F64.sub (F64.of_int (Price g)) W).
Proof.
  split; [|split].
  - intros g. unfold EV, EV_spec, RemainingTickets, weighted_sum.
    destruct (_ =? 0); [reflexivity|]. rewrite ev_loop_filter. reflexivity.
  - intros g Hfin H0. unfold EV, RemainingTickets. rewrite H0.
    destruct (Odds g) as [s|s| |s m e]; try discriminate; reflexivity.
  - intros g W Hrt <-. unfold EV. apply Z.eqb_neq in Hrt. rewrite Hrt.
    rewrite ev_loop_filter. reflexivity.
Qed.

Lemma EV_reference_witness :
  F64.is_finite three_point_five = true /\
  TotalRemainingPrizes (mkGame "g" 5 three_point_five "" 0 [] 0 0 "") = 0 /\
  EV (mkGame "g" 5 three_point_five "" 0 [] 0 0 "") = F64.of_int 5.
Proof.
  split; [reflexivity|]. split; [reflexivity|].
  apply (proj1 (proj2 EV_reference)); reflexivity.
Defined.

(** C3: with odds +Inf (the value ParseFloat gives for "Inf") and remaining
    counts adding up to 0, Inf * 0 is NaN, [int(NaN)] is -2^63 on amd64, so
    RemainingTickets is not 0 and EV is not the price. *)
Lemma EV_inf_odds :
  TotalRemainingPrizes inf_odds_game = 0 /\
  RemainingTickets inf_odds_game = - 2 ^ 63 /\
  EV inf_odds_game <> F64.of_int (Price inf_odds_game).
Proof. split; [reflexivity|]. split; [vm_compute; reflexivity|]. vm_compute. discriminate. Qed.

Lemma iter_pos_iter {A} (f : A -> A) p x : iter_pos f p x = Pos.iter f x p.
Proof.
  revert x; induction p as [p IH|p IH|]; intro x; simpl; rewrite ?IH; try reflexivity.
  rewrite Pos.iter_swap. rewrite Pos.iter_swap. reflexivity.
Qed.

Lemma shr_1_m r : shr_m (shr_1 r) = Z.quot2 (shr_m r).
Proof. destruct r as [m r s]; destruct m as [|[p|p|]|[p|p|]]; reflexivity. Qed.

Lemma shr_iter_m p r : shr_m (iter_pos shr_1 p r) = Pos.iter Z.quot2 (shr_m r) p.
Proof. rewrite iter_pos_iter. apply Pos.iter_swap_gen. apply shr_1_m. Qed.

Lemma quot2_div2 m : 0 <= m -> Z.quot2 m = Z.div2 m.
Proof. intro H; destruct m as [|[p|p|]|p]; try reflexivity; lia. Qed.

Lemma iter_quot2 p m : 0 <= m -> Pos.iter Z.quot2 m p = m / 2 ^ Zpos p.
Proof.
  intro Hm. rewrite <- Z.shiftr_div_pow2 by lia.
  change (Z.shiftr m (Zpos p)) with (Pos.iter Z.div2 m p).
  enough (Pos.iter Z.quot2 m p = Pos.iter Z.div2 m p /\ 0 <= Pos.iter Z.div2 m p) by tauto.
  induction p as [|p IH] using Pos.peano_ind.
  - simpl. split; [apply quot2_div2; lia | apply Z.div2_nonneg; lia].
  - rewrite !Pos.iter_succ. destruct IH as [E N]. rewrite E.
    split; [apply quot2_div2; lia | apply Z.div2_nonneg; lia].
Qed.

Lemma shr_m_of_loc m l : shr_m (shr_record_of_loc m l) = m.
Proof. destruct l as [|[]]; reflexivity. Qed.

Lemma shr_nonpos r e n : n <= 0 -> shr r e n = (r, e).
Proof. intro H; destruct n; [reflexivity | lia | reflexivity]. Qed.

Lemma shr_fexp_nonneg m e l :
  0 <= m -> 0 <= shr_m (fst (shr_fexp F64.prec F64.emax m e l)).
Proof.
  intro Hm. unfold shr_fexp, shr.
  destruct (_ - e) as [|k|k]; simpl; rewrite ?shr_iter_m, shr_m_of_loc; try lia.
  rewrite iter_quot2 by lia. apply Z.div_pos; lia.
Qed.

Lemma round_nearest_even_nonneg m l : 0 <= m -> 0 <= round_nearest_even m l.
Proof. intro H; destruct l as [|[]]; simpl; try destruct (Z.even m); lia. Qed.

Lemma binary_round_aux_has_sign sx mx ex lx :
  0 <= mx -> has_sign sx (binary_round_aux F64.prec F64.emax sx mx ex lx).
Proof.
  intro Hm. unfold binary_round_aux.
  destruct (shr_fexp F64.prec F64.emax mx ex lx) as [mrs' e'] eqn:E1.
  pose proof (shr_fexp_nonneg mx ex lx Hm) as N1. rewrite E1 in N1; simpl in N1.
  destruct (shr_fexp F64.prec F64.emax (round_nearest_even (shr_m mrs') (loc_of_shr_record mrs')) e' loc_Exact) as [mrs'' e''] eqn:E2.
  pose proof (shr_fexp_nonneg (round_nearest_even (shr_m mrs') (loc_of_shr_record mrs')) e' loc_Exact
                (round_nearest_even_nonneg _ _ N1)) as N2.
  rewrite E2 in N2; simpl in N2.
  destruct (shr_m mrs''); simpl; [reflexivity | destruct (_ <=? _); reflexivity | lia].
Qed.

Lemma binary_round_has_sign sx p e : has_sign sx (binary_round F64.prec F64.emax sx p e).
Proof. unfold binary_round. destruct shl_align. apply binary_round_aux_has_sign. lia. Qed.

Lemma digits2_pos_size p : digits2_pos p = Pos.size p.
Proof. induction p; simpl; rewrite ?IHp; reflexivity. Qed.

Lemma size_bounds p :
  2 ^ (Zpos (Pos.size p) - 1) <= Zpos p < 2 ^ Zpos (Pos.size p).
Proof.
  pose proof (Pos.size_le p) as L. pose proof (Pos.size_gt p) as G.
  assert (L' : Zpos (2 ^ Pos.size p) <= Zpos (p~0)) by exact L.
  assert (G' : Zpos p < Zpos (2 ^ Pos.size p)) by exact G. clear L G.
  rename L' into L. rename G' into G.
  rewrite Pos2Z.inj_pow in L, G. change (Zpos p~0) with (2 * Zpos p) in L.
  split; [|exact G].
  assert (E : 2 ^ Zpos (Pos.size p) = 2 * 2 ^ (Zpos (Pos.size p) - 1)).
  { rewrite <- Z.pow_succ_r by lia. f_equal. lia. }
  lia.
Qed.

Lemma fexp_normal e : -1000 <= e -> SpecFloat.fexp F64.prec F64.emax e = e - 53.
Proof. intro H. unfold SpecFloat.fexp, emin, F64.prec, F64.emax. lia. Qed.

Lemma round_aux_exact_finite sx mz ez :
  -1000 <= Zpos (Pos.size mz) + ez <= 900 ->
  exists m e, binary_round_aux F64.prec F64.emax sx (Zpos mz) ez loc_Exact = S754_finite sx m e.
Proof.
  intro HS. set (S := Zpos (Pos.size mz)) in HS.
  pose proof (size_bounds mz) as B. fold S in B.
  unfold binary_round_aux, shr_fexp at 1.
  assert (H1 : fexp F64.prec F64.emax (Zdigits2 (Zpos mz) + ez) - ez = S - 53).
  { simpl Zdigits2. rewrite digits2_pos_size. fold S. rewrite fexp_normal by lia. lia. }
  rewrite H1.
  destruct (Z_le_gt_dec S 53) as [Hle|Hgt].
  - rewrite shr_nonpos by lia. simpl shr_m. simpl loc_of_shr_record.
    cbv beta iota. unfold round_nearest_even.
    unfold shr_fexp. rewrite H1, shr_nonpos by lia. simpl.
    replace (ez <=? 971) with true by (symmetry; apply Z.leb_le; lia).
    eauto.
  - destruct (S - 53) as [|k|k] eqn:Ek; try lia.
    unfold shr. simpl shr_record_of_loc.
    set (r1 := iter_pos shr_1 k {| shr_m := Zpos mz; shr_r := false; shr_s := false |}).
    assert (M1 : shr_m r1 = Zpos mz / 2 ^ Zpos k).
    { unfold r1. rewrite shr_iter_m, iter_quot2 by (simpl; lia). reflexivity. }
    assert (L1 : 2 ^ 52 <= shr_m r1 < 2 ^ 53).
    { rewrite M1. assert (P : 0 < 2 ^ Zpos k) by (apply Z.pow_pos_nonneg; lia).
      split.
      - apply Z.div_le_lower_bound; [lia|].
        rewrite <- Z.pow_add_r by lia. replace (Zpos k + 52) with (S - 1) by lia. lia.
      - apply Z.div_lt_upper_bound; [lia|].
        rewrite <- Z.pow_add_r by lia. replace (Zpos k + 53) with S by lia. lia. }
    set (m2 := round_nearest_even (shr_m r1) (loc_of_shr_record r1)).
    assert (L2 : 2 ^ 52 <= m2 <= 2 ^ 53).
    { unfold m2. destruct (loc_of_shr_record r1) as [|[]]; simpl;
        try destruct (Z.even _); lia. }
    destruct m2 as [|q|q] eqn:Em2; try lia.
    assert (Q1 : q <> 1%positive) by (intro; subst; lia).
    pose proof (size_bounds q) as Bq.
    set (S2 := Zpos (Pos.size q)) in Bq.
    assert (HS2 : S2 = 53 \/ S2 = 54).
    { destruct (Z_le_gt_dec S2 52) as [A|A].
      - pose proof (Z.pow_le_mono_r 2 S2 52 ltac:(lia) A). lia.
      - destruct (Z_le_gt_dec 55 S2) as [C|C]; [|lia].
        pose proof (Z.pow_le_mono_r 2 54 (S2 - 1) ltac:(lia) ltac:(lia)). lia. }
    unfold shr_fexp.
    assert (H2 : fexp F64.prec F64.emax (Zdigits2 (Zpos q) + (ez + Zpos k)) - (ez + Zpos k) = S2 - 53).
    { simpl Zdigits2. rewrite digits2_pos_size. fold S2. rewrite fexp_normal by lia. lia. }
    rewrite H2. destruct HS2 as [E|E]; rewrite E.
    + simpl. replace (ez + Zpos k <=? 971) with true
        by (symmetry; apply Z.leb_le; lia).
      eauto.
    + simpl.
      replace (ez + Zpos k + 1 <=? 971) with true
        by (symmetry; apply Z.leb_le; lia).
      destruct q as [q'|q'|]; simpl; [eauto | eauto | exfalso; lia].
Qed.

Lemma size_iter_xO p d : Pos.size (Pos.iter xO p d) = (Pos.size p + d)%positive.
Proof.
  induction d as [|d IH] using Pos.peano_ind.
  - simpl. rewrite Pos.add_1_r. reflexivity.
  - rewrite Pos.iter_succ. simpl. rewrite IH, Pos.add_succ_r. reflexivity.
Qed.

Lemma binary_round_finite sx p :
  Zpos (Pos.size p) <= 900 ->
  exists m e, binary_round F64.prec F64.emax sx p 0 = S754_finite sx m e.
Proof.
  intro H. unfold binary_round. rewrite digits2_pos_size.
  rewrite fexp_normal by lia. unfold shl_align.
  destruct (Zpos (Pos.size p) + 0 - 53 - 0) as [|d|d] eqn:E;
    apply round_aux_exact_finite; try lia.
  rewrite size_iter_xO, Pos2Z.inj_add. lia.
Qed.

Lemma size_le_64 p : Zpos p <= 2 ^ 63 -> Zpos (Pos.size p) <= 64.
Proof.
  intro H. pose proof (size_bounds p) as [B _].
  destruct (Z_le_gt_dec (Zpos (Pos.size p)) 64) as [A|A]; [exact A|].
  pose proof (Z.pow_le_mono_r 2 64 (Zpos (Pos.size p) - 1) ltac:(lia) ltac:(lia)). lia.
Qed.

Lemma of_int_finite n :
  n <> 0 -> GoInt.in_range n ->
  exists m e, F64.of_int n = S754_finite (n <? 0) m e.
Proof.
  unfold GoInt.in_range, GoInt.int_min, GoInt.int_max. intros Hn Hr.
  destruct n as [|p|p]; [congruence| |]; unfold F64.of_int, binary_normalize;
    apply binary_round_finite; pose proof (size_le_64 p); lia.
Qed.

Lemma has_sign_not_nan s x : has_sign s x -> F64.is_nan x = false.
Proof. destruct x; simpl; tauto. Qed.

Lemma of_int_pos n : 0 < n -> has_sign false (F64.of_int n).
Proof. intro H. destruct n as [|p|p]; try lia. apply binary_round_has_sign. Qed.

Lemma of_int_not_nan n : F64.is_nan (F64.of_int n) = false.
Proof.
  destruct n as [|p|p]; [reflexivity| |]; eapply has_sign_not_nan; apply binary_round_has_sign.
Qed.

Lemma SFdiv_core_nonneg m1 e1 m2 e2 :
  0 <= m1 -> 0 < m2 -> 0 <= fst (fst (SFdiv_core_binary F64.prec F64.emax m1 e1 m2 e2)).
Proof.
  intros H1 H2. unfold SFdiv_core_binary. cbv zeta.
  match goal with |- context [Z.div_eucl ?a m2] => set (m' := a) end.
  assert (Hm : 0 <= m').
  { unfold m'. destruct (_ - _ - _); try lia. apply Z.shiftl_nonneg. lia. }
  destruct (Z.div_eucl m' m2) as [q r] eqn:E. simpl.
  assert (q = m' / m2) by (unfold Z.div; rewrite E; reflexivity). subst.
  apply Z.div_pos; lia.
Qed.

Lemma div_has_sign s x sy my ey :
  has_sign s x -> has_sign (xorb s sy) (F64.div x (S754_finite sy my ey)).
Proof.
  intro H. destruct x as [b|b| | b m e]; simpl in H; try contradiction; subst; try reflexivity.
  unfold F64.div, SFdiv.
  pose proof (SFdiv_core_nonneg (Zpos m) e (Zpos my) ey ltac:(lia) ltac:(lia)) as N.
  destruct (SFdiv_core_binary _ _ (Zpos m) e (Zpos my) ey) as [[mz ez] lz].
  apply binary_round_aux_has_sign. exact N.
Qed.

Lemma mul_has_sign_pos s x m e :
  has_sign s x -> has_sign s (F64.mul x (S754_finite false m e)).
Proof.
  intro H. destruct x as [b|b| | b mx ex]; simpl in H; try contradiction; subst;
    simpl; rewrite ?xorb_false_r; try reflexivity.
  unfold F64.mul, SFmul.
  pose proof (binary_round_aux_has_sign (xorb s false) (Zpos (mx * m)) (ex + e) loc_Exact
                ltac:(lia)) as R.
  rewrite xorb_false_r in R. exact R.
Qed.

Lemma add_acc s acc t :
  (acc = F64.zero \/ has_sign s acc) -> has_sign s t ->
  F64.add acc t = F64.zero \/ has_sign s (F64.add acc t).
Proof.
  intros [->|Ha] Ht.
  - destruct t as [b|b| |b m e]; simpl in Ht; try contradiction; subst;
      [destruct s; [left|left] | right | right]; reflexivity.
  - destruct acc as [b|b| |b m e]; simpl in Ha; try contradiction; subst;
    destruct t as [b|b| |b m' e']; simpl in Ht; try contradiction; subst;
      try (destruct s; right; reflexivity).
    right. unfold F64.add, SFadd.
    destruct s; simpl; apply binary_round_has_sign.
Qed.

Lemma binary_normalize_not_nan m e b :
  F64.is_nan (binary_normalize F64.prec F64.emax m e b) = false.
Proof.
  destruct m as [|p|p]; [reflexivity| |]; eapply has_sign_not_nan; apply binary_round_has_sign.
Qed.

Lemma sub_not_nan s x acc :
  F64.is_finite x = true -> (acc = F64.zero \/ has_sign s acc) ->
  F64.is_nan (F64.sub x acc) = false.
Proof.
  intros Hx Ha.
  destruct x as [bx|bx| |bx mx ex]; simpl in Hx; try discriminate;
  (destruct Ha as [->|Ha]; [destruct bx; reflexivity|]);
  destruct acc as [b|b| |b m e]; simpl in Ha; try contradiction;
    try (destruct bx, b; reflexivity).
  unfold F64.sub, SFsub. apply binary_normalize_not_nan.
Qed.

Lemma of_int_is_finite n : GoInt.in_range n -> F64.is_finite (F64.of_int n) = true.
Proof.
  intro H. destruct (Z.eq_dec n 0) as [->|Hn]; [reflexivity|].
  destruct (of_int_finite n Hn H) as (m & e & ->). reflexivity.
Qed.

Lemma to_int_range x : GoInt.in_range (F64.to_int x).
Proof.
  unfold GoInt.in_range.
  destruct x as [b|b| |b m e]; unfold F64.to_int; cbv zeta;
    unfold GoInt.int_min, GoInt.int_max; try lia.
  match goal with |- context [if ?c then ?v else _] => destruct c eqn:E end.
  - apply andb_true_iff in E as [E1 E2]. apply Z.leb_le in E1, E2. lia.
  - lia.
Qed.

Lemma ev_fold_has_sign rt s m e tiers acc :
  F64.of_int rt = S754_finite s m e -> Forall wf_tier tiers ->
  (acc = F64.zero \/ has_sign s acc) ->
  let r := fold_left (ev_step rt) tiers acc in r = F64.zero \/ has_sign s r.
Proof.
  intros Hrt Hf. revert acc. induction Hf as [|p tiers [Hv _] _ IH]; intros acc Ha; simpl; [exact Ha|].
  apply IH. unfold ev_step. rewrite Hrt.
  destruct ((RemainingCount p <=? 0) || (Value p <=? 0)) eqn:Skip; [exact Ha|].
  apply orb_false_iff in Skip as [Hc Hv']. apply Z.leb_gt in Hc, Hv'.
  apply add_acc; [exact Ha|].
  destruct (of_int_finite (Value p) ltac:(lia) Hv) as (mv & ev & Ev). rewrite Ev.
  replace (Value p <? 0) with false by (symmetry; apply Z.ltb_ge; lia).
  apply mul_has_sign_pos. change s with (xorb false s). apply div_has_sign, of_int_pos. exact Hc.
Qed.

Lemma EV_not_nan g : wf_game g -> F64.is_nan (EV g) = false.
Proof.
  intros (Hp & _ & _ & _ & Ht). unfold EV. cbv zeta.
  destruct (RemainingTickets g =? 0) eqn:E0; [apply of_int_not_nan|].
  apply Z.eqb_neq in E0.
  destruct (of_int_finite (RemainingTickets g) E0 (to_int_range _)) as (m & e & Ert).
  eapply sub_not_nan; [apply of_int_is_finite; exact Hp|].
  apply (ev_fold_has_sign _ _ m e); [exact Ert | exact Ht | left; reflexivity].
Qed.

Lemma SFcompare_key x y :
  F64.is_nan x = false -> F64.is_nan y = false ->
  SFcompare x y = Some (lex_compare (sf_key x) (sf_key y)).
Proof.
  intros Hx Hy.
  destruct x as [[]|[]| |[] m e]; try discriminate;
  destruct y as [[]|[]| |[] m' e']; try discriminate; try reflexivity.
  all: simpl; rewrite ?Z.compare_opp, ?(Z.compare_antisym e e');
    destruct (e ?= e'); reflexivity.
Qed.

Lemma lex_le_iff a b : lex_compare a b <> Gt <-> lex_le a b.
Proof.
  destruct a as [[a1 a2] a3], b as [[b1 b2] b3]. simpl.
  destruct (Z.compare_spec a1 b1); [destruct (Z.compare_spec a2 b2);
    [destruct (Z.compare_spec a3 b3)| |] | |];
    split; intro H'; try congruence; try lia.
Qed.

Lemma lex_compare_antisym a b : lex_compare b a = CompOpp (lex_compare a b).
Proof.
  destruct a as [[a1 a2] a3], b as [[b1 b2] b3]. simpl.
  rewrite (Z.compare_antisym a1 b1), (Z.compare_antisym a2 b2), (Z.compare_antisym a3 b3).
  destruct (a1 ?= b1), (a2 ?= b2); reflexivity.
Qed.

Lemma SFleb_key x y :
  F64.is_nan x = false -> F64.is_nan y = false ->
  SFleb x y = true <-> lex_le (sf_key x) (sf_key y).
Proof.
  intros Hx Hy. rewrite <- lex_le_iff. unfold SFleb. rewrite SFcompare_key by assumption.
  destruct (lex_compare _ _); split; congruence.
Qed.

Lemma SFleb_trans x y z :
  F64.is_nan x = false -> F64.is_nan y = false -> F64.is_nan z = false ->
  SFleb x y = true -> SFleb y z = true -> SFleb x z = true.
Proof.
  intros Hx Hy Hz H1 H2. apply SFleb_key in H1, H2; auto. apply SFleb_key; auto.
  destruct (sf_key x) as [[a1 a2] a3], (sf_key y) as [[b1 b2] b3], (sf_key z) as [[c1 c2] c3].
  simpl in *. lia.
Qed.

Lemma SFltb_SFleb x y : SFltb x y = true -> SFleb x y = true.
Proof. unfold SFltb, SFleb. destruct (SFcompare x y) as [[]|]; congruence. Qed.

Lemma SFltb_false x y :
  F64.is_nan x = false -> F64.is_nan y = false ->
  SFltb y x = false -> SFleb x y = true.
Proof.
  intros Hx Hy H. unfold SFltb, SFleb in *. rewrite SFcompare_key in * by assumption.
  rewrite lex_compare_antisym in H. destruct (lex_compare (sf_key x) (sf_key y)); simpl in H; congruence.
Qed.

Section InsertionSort.
Context {A : Type} (less : A -> A -> bool) (R : A -> A -> Prop) (P : A -> Prop).
Hypothesis less_true : forall x y, P x -> P y -> less x y = true -> R x y.
Hypothesis less_false : forall x y, P x -> P y -> less x y = false -> R y x.
Hypothesis R_trans : forall x y z, P x -> P y -> P z -> R x y -> R y z -> R x z.

Lemma Forall_perm (Q : A -> Prop) l l' : Permutation l l' -> Forall Q l -> Forall Q l'.
Proof.
  intros Hp H. apply Forall_forall. intros x Hx.
  apply (proj1 (Forall_forall Q l) H). apply (Permutation_in x (Permutation_sym Hp) Hx).
Qed.

Lemma insert_by_sorted x l :
  P x -> Forall P l -> StronglySorted R l -> StronglySorted R (insert_by less x l).
Proof.
  intros Px. induction l as [|y l IH]; intros Fl Ss; simpl.
  - repeat constructor.
  - inversion Fl as [|? ? Py Fl']; subst. inversion Ss as [|? ? Ss' Ry]; subst.
    destruct (less x y) eqn:E.
    + constructor; [exact Ss|]. constructor; [apply less_true; auto|].
      apply Forall_forall. intros z Hz.
      apply (R_trans x y z); auto.
      * apply (proj1 (Forall_forall P l) Fl' z Hz).
      * apply (proj1 (Forall_forall _ l) Ry z Hz).
    + constructor; [apply IH; auto|].
      apply (Forall_perm (R y) (x :: l)); [symmetry; apply insert_by_perm|].
      constructor; [apply less_false; auto | exact Ry].
Qed.

Lemma sort_slice_sorted l : Forall P l -> StronglySorted R (sort_slice less l).
Proof.
  induction l as [|x l IH]; intro Fl; [constructor|].
  inversion Fl; subst. unfold sort_slice; simpl. fold (sort_slice less l).
  apply insert_by_sorted; auto.
  apply (Forall_perm P l); [symmetry; apply sort_slice_perm | assumption].
Qed.
End InsertionSort.

Lemma StronglySorted_map {A B} (f : A -> B) (R : B -> B -> Prop) l :
  StronglySorted (fun a b => R (f a) (f b)) l -> StronglySorted R (map f l).
Proof.
  induction 1 as [|a l _ IH HF]; simpl; constructor; [exact IH|].
  apply Forall_map. exact HF.
Qed.

Lemma StronglySorted_nth {A} (R : A -> A -> Prop) l d i j :
  StronglySorted R l -> (i < j < List.length l)%nat -> R (nth i l d) (nth j l d).
Proof.
  intros H. revert i j. induction H as [|a l _ IH HF]; intros i j Hij; simpl in Hij; [lia|].
  destruct i as [|i], j as [|j]; try lia; simpl.
  - apply (proj1 (Forall_forall _ l) HF). apply nth_In. lia.
  - apply IH. lia.
Qed.

(** C6: in the written report the rows are in non-increasing order of EV:
    for rows i < j of the sorted collection, EV of row i >= EV of row j
    (float64 [>=]), for every collection of games whose int fields are Go
    ints. EV is never NaN for such a game, and the insertion sort used for
    [sort.Slice] with the comparison [EV(a) > EV(b)] orders the rows so. *)
Theorem report_EVs_sorted (games : list Game) (Hwf : Forall wf_game games)
  (i j : nat) (Hij : (i < j < List.length (report_EVs games))%nat) :
  F64.ge (nth i (report_EVs games) F64.zero) (nth j (report_EVs games) F64.zero) = true.
Proof.
  revert i j Hij. unfold report_EVs, sort_games. intros i j Hij.
  apply (StronglySorted_nth (fun a b => F64.ge a b = true)); [|exact Hij].
  apply StronglySorted_map.
  apply (sort_slice_sorted _ _ (fun g => F64.is_nan (EV g) = false)).
  - intros x y _ _ H. apply SFltb_SFleb. exact H.
  - intros x y Px Py H. apply SFltb_false; assumption.
  - intros x y z Px Py Pz H1 H2. unfold F64.ge in *.
    apply (SFleb_trans _ (EV y)); assumption.
  - apply Forall_forall. intros g Hg. apply EV_not_nan.
    apply (proj1 (Forall_forall _ games) Hwf g Hg).
Qed.

Lemma report_EVs_sorted_witness :
  Forall wf_game [report_game_b; report_game_a] /\
  F64.ge (nth 0 (report_EVs [report_game_b; report_game_a]) F64.zero)
         (nth 1 (report_EVs [report_game_b; report_game_a]) F64.zero) = true.
Proof.
  assert (Hwf : Forall wf_game [report_game_b; report_game_a]).
  { unfold wf_game, wf_tier, GoInt.in_range, GoInt.int_min, GoInt.int_max.
    repeat constructor; simpl; lia. }
  split; [exact Hwf|].
  apply (report_EVs_sorted [report_game_b; report_game_a] Hwf 0 1).
  vm_compute. lia.
Defined.

(** ** Lemmas on strconv.Itoa, the CSV writer, tables, links and names *)

Lemma digit_char_ok (d : Z) : 0 <= d <= 9 -> digit (digit_char d) = Some d.
Proof.
  intros H.
  assert (d = 0 \/ d = 1 \/ d = 2 \/ d = 3 \/ d = 4 \/ d = 5 \/ d = 6 \/ d = 7 \/ d = 8 \/ d = 9)
    as Hd by lia.
  repeat destruct Hd as [-> | Hd]; try reflexivity; subst; reflexivity.
Qed.

Lemma utoa_loop_ok (fuel : nat) (n : Z) (acc : string) :
  (fuel <> 0)%nat -> 0 <= n < 2 ^ Z.of_nat fuel -> all_digits acc = true ->
  let s := utoa_loop fuel n acc in
  all_digits s = true /\
  decimal_value s = n * 10 ^ Z.of_nat (String.length acc) + decimal_value acc /\
  (String.length acc < String.length s)%nat.
Proof.
  revert n acc. induction fuel as [|f IH]; intros n acc Hf Hn Hacc; [congruence|].
  cbn zeta. cbn [utoa_loop].
  assert (Hm : 0 <= n mod 10 <= 9) by (pose proof (Z.mod_pos_bound n 10); lia).
  pose proof (digit_char_ok _ Hm) as Hc.
  assert (Hs : all_digits (String (digit_char (n mod 10)) acc) = true)
    by (cbn [all_digits]; rewrite Hc; exact Hacc).
  assert (Hv : decimal_value (String (digit_char (n mod 10)) acc) =
               n mod 10 * 10 ^ Z.of_nat (String.length acc) + decimal_value acc)
    by (cbn [decimal_value]; rewrite Hc; reflexivity).
  destruct (Z.ltb_spec n 10) as [Hlt|Hge].
  - split; [exact Hs|]. split; [|simpl; lia].
    rewrite Hv. rewrite Z.mod_small by lia. reflexivity.
  - assert (Hf' : f <> 0%nat).
    { intros ->. simpl in Hn. lia. }
    assert (Hn' : 0 <= n / 10 < 2 ^ Z.of_nat f).
    { rewrite Nat2Z.inj_succ, Z.pow_succ_r in Hn by lia.
      split; [apply Z.div_pos; lia|].
      apply Z.div_lt_upper_bound; lia. }
    destruct (IH (n / 10) _ Hf' Hn' Hs) as (A & B & C).
    split; [exact A|]. split; [|simpl in C |- *; lia].
    rewrite B, Hv. simpl String.length. rewrite Nat2Z.inj_succ, Z.pow_succ_r by lia.
    pose proof (Z.div_mod n 10 ltac:(lia)). nia.
Qed.

Lemma FormatUint_ok (n : Z) :
  0 <= n ->
  all_digits (FormatUint n) = true /\ decimal_value (FormatUint n) = n /\
  FormatUint n <> EmptyString.
Proof.
  intros Hn. unfold FormatUint.
  assert (Hb : 0 <= n < 2 ^ Z.of_nat (S (Z.to_nat (Z.log2 n)))).
  { rewrite Nat2Z.inj_succ, Z2Nat.id by apply Z.log2_nonneg.
    destruct (Z.eq_dec n 0) as [->|Hn0]; [simpl; lia|].
    pose proof (Z.log2_spec n ltac:(lia)). lia. }
  destruct (utoa_loop_ok (S (Z.to_nat (Z.log2 n))) n EmptyString (Nat.neq_succ_0 _) Hb eq_refl) as (A & B & C).
  split; [exact A|]. split.
  - rewrite B. simpl. lia.
  - intros E. rewrite E in C. simpl in C. lia.
Qed.

Lemma Itoa_numeral (n : Z) : numeral (Itoa n) n.
Proof.
  unfold Itoa. destruct (Z.ltb_spec n 0) as [Hneg|Hpos].
  - destruct (FormatUint_ok (- n) ltac:(lia)) as (A & B & C).
    exists "-"%string, (FormatUint (- n)).
    split; [reflexivity|]. split; [right; right; reflexivity|].
    split; [exact C|]. split; [exact A|]. rewrite B. simpl. lia.
  - destruct (FormatUint_ok n Hpos) as (A & B & C).
    exists EmptyString, (FormatUint n).
    split; [reflexivity|]. split; [left; reflexivity|].
    split; [exact C|]. split; [exact A|]. rewrite B. reflexivity.
Qed.

Lemma remove_char_digits (c : ascii) (s : string) :
  digit c = None -> all_digits s = true -> remove_char c s = s.
Proof.
  intros Hc. induction s as [|x s IH]; intros H; [reflexivity|].
  cbn [all_digits] in H. destruct (digit x) eqn:Ex; [|discriminate].
  simpl. destruct (Ascii.eqb_spec x c) as [->|]; [congruence|].
  rewrite IH by exact H. reflexivity.
Qed.

Lemma remove_char_Itoa (c : ascii) (n : Z) :
  digit c = None -> c <> "-"%char -> remove_char c (Itoa n) = Itoa n.
Proof.
  intros Hc Hm. unfold Itoa. destruct (Z.ltb_spec n 0).
  - change (remove_char c (String "-"%char (FormatUint (- n)))) with
      (if Ascii.eqb "-"%char c then remove_char c (FormatUint (- n))
       else String "-"%char (remove_char c (FormatUint (- n)))).
    replace (Ascii.eqb "-"%char c) with false
      by (symmetry; apply Ascii.eqb_neq; congruence).
    rewrite remove_char_digits; [reflexivity | exact Hc | apply FormatUint_ok; lia].
  - apply remove_char_digits; [exact Hc|]. apply FormatUint_ok. lia.
Qed.

Lemma parse_Itoa (n : Z) :
  GoInt.in_range n ->
  parseInt (Itoa n) = n /\ parseDollar (Itoa n) = n /\ parseDollar (String "$"%char (Itoa n)) = n.
Proof.
  intros Hr. unfold parseInt, parseDollar.
  rewrite (remove_char_Itoa ","%char) by (reflexivity || discriminate).
  split; [apply Atoi_numeral; [apply Itoa_numeral | exact Hr]|].
  rewrite (remove_char_Itoa "$"%char) by (reflexivity || discriminate).
  rewrite (remove_char_Itoa ","%char) by (reflexivity || discriminate).
  split; [apply Atoi_numeral; [apply Itoa_numeral | exact Hr]|].
  change (remove_char "$"%char (String "$"%char (Itoa n))) with (remove_char "$"%char (Itoa n)).
  rewrite (remove_char_Itoa "$"%char) by (reflexivity || discriminate).
  rewrite (remove_char_Itoa ","%char) by (reflexivity || discriminate).
  apply Atoi_numeral; [apply Itoa_numeral | exact Hr].
Qed.

Lemma str_app_assoc (a b c : string) : ((a ++ b) ++ c = a ++ (b ++ c))%string.
Proof. induction a; simpl; [reflexivity | now rewrite IHa]. Qed.

Lemma str_length_app (a b : string) :
  String.length (a ++ b) = (String.length a + String.length b)%nat.
Proof. induction a; simpl; [reflexivity | now rewrite IHa]. Qed.

Module CsvFacts.
Import Csv.

Lemma read_quoted_cons (c : ascii) (s' : string) :
  read_quoted (String c s') =
  if Ascii.eqb c quote then
    match s' with
    | String c2 s'' =>
        if Ascii.eqb c2 quote then
          option_map (fun '(f, r) => (String quote f, r)) (read_quoted s'')
        else Some (EmptyString, s')
    | EmptyString => Some (EmptyString, s')
    end
  else option_map (fun '(f, r) => (String c f, r)) (read_quoted s').
Proof. reflexivity. Qed.

Lemma read_quoted_escape (f rest : string) (c : ascii) :
  c <> quote ->
  read_quoted (escape f ++ String quote (String c rest)) = Some (f, String c rest).
Proof.
  intros Hc. induction f as [|x f IH].
  - change (escape EmptyString ++ String quote (String c rest))%string
      with (String quote (String c rest)).
    rewrite read_quoted_cons, Ascii.eqb_refl.
    destruct (Ascii.eqb_spec c quote); [congruence|reflexivity].
  - cbn [escape]. destruct (Ascii.eqb_spec x quote) as [->|Hx].
    + cbn [append]. rewrite read_quoted_cons, Ascii.eqb_refl. cbn iota. rewrite IH. reflexivity.
    + cbn [append]. rewrite read_quoted_cons.
      destruct (Ascii.eqb_spec x quote); [congruence|]. rewrite IH. reflexivity.
Qed.

Lemma read_unquoted_cons (c : ascii) (s' : string) :
  read_unquoted (String c s') =
  if Ascii.eqb c comma || Ascii.eqb c nl then Some (EmptyString, String c s')
  else if Ascii.eqb c quote then None
  else option_map (fun '(f, r) => (String c f, r)) (read_unquoted s').
Proof. reflexivity. Qed.

Lemma read_unquoted_plain (f rest : string) (c : ascii) :
  existsb special (list_ascii_of_string f) = false -> c = comma \/ c = nl ->
  read_unquoted (f ++ String c rest) = Some (f, String c rest).
Proof.
  intros Hf Hc. induction f as [|x f IH].
  - destruct Hc as [-> | ->]; reflexivity.
  - cbn [list_ascii_of_string existsb] in Hf.
    apply orb_false_iff in Hf as [Hx Hf]. unfold special in Hx.
    apply orb_false_iff in Hx as [Hx Hcomma]. apply orb_false_iff in Hx as [Hx Hq].
    apply orb_false_iff in Hx as [Hn _].
    cbn [append]. rewrite read_unquoted_cons, Hcomma, Hn, Hq, IH by exact Hf. reflexivity.
Qed.

Lemma plain_not_quote (x : ascii) (f : string) :
  existsb special (list_ascii_of_string (String x f)) = false -> Ascii.eqb x quote = false.
Proof.
  simpl. unfold special. intros H.
  destruct (Ascii.eqb x quote); [|reflexivity].
  rewrite !orb_true_r in H. discriminate.
Qed.

Lemma read_field_write_field (f rest : string) (c : ascii) :
  c = comma \/ c = nl ->
  read_field (write_field f ++ String c rest) = Some (f, String c rest).
Proof.
  intros Hc. unfold write_field. destruct (fieldNeedsQuotes f) eqn:Hq.
  - cbn [append]. rewrite str_app_assoc. cbn [append].
    change (read_field (String quote ?x)) with (read_quoted x).
    apply read_quoted_escape. destruct Hc as [-> | ->]; discriminate.
  - assert (Hs : existsb special (list_ascii_of_string f) = false).
    { unfold fieldNeedsQuotes in Hq.
      destruct (String.eqb f EmptyString) eqn:E.
      + apply String.eqb_eq in E. subst. reflexivity.
      + destruct (String.eqb f "\."); [discriminate|].
        apply orb_false_iff in Hq. tauto. }
    destruct f as [|x f'].
    + simpl. destruct Hc as [-> | ->]; reflexivity.
    + change (String x f' ++ String c rest)%string with (String x (f' ++ String c rest))%string.
      unfold read_field. rewrite (plain_not_quote x f' Hs).
      exact (read_unquoted_plain (String x f') rest c Hs Hc).
Qed.

Lemma concat_cons (sep f : string) (fs : list string) :
  fs <> [] -> String.concat sep (f :: fs) = (f ++ sep ++ String.concat sep fs)%string.
Proof. destruct fs; [congruence|reflexivity]. Qed.

Lemma read_fields_Write (fuel : nat) (r : list string) (rest : string) :
  r <> [] -> (List.length r <= fuel)%nat ->
  read_fields fuel (String.concat "," (map write_field r) ++ String nl rest) = Some (r, rest).
Proof.
  revert fuel. induction r as [|f r IH]; intros fuel Hne Hf; [congruence|].
  destruct fuel as [|fuel]; [simpl in Hf; lia|].
  destruct r as [|f2 r'].
  - simpl. rewrite read_field_write_field by (right; reflexivity). reflexivity.
  - rewrite map_cons, concat_cons by discriminate.
    rewrite str_app_assoc, str_app_assoc. simpl.
    change (String "," ?x) with (String comma x).
    rewrite read_field_write_field by (left; reflexivity). simpl.
    rewrite IH by (discriminate || (simpl in *; lia)). reflexivity.
Qed.

Lemma concat_length (l : list string) :
  (List.length l <= S (String.length (String.concat "," l)))%nat.
Proof.
  induction l as [|f l IH]; simpl; [lia|].
  destruct l as [|f2 l']; simpl; [lia|].
  rewrite str_length_app. simpl. simpl in IH. lia.
Qed.

Lemma Write_length (r : list string) (rest : string) :
  (List.length r <= String.length (Write r ++ rest))%nat.
Proof.
  unfold Write. rewrite !str_length_app. simpl.
  pose proof (concat_length (map write_field r)). rewrite length_map in H. lia.
Qed.

Lemma read_record_Write (r : list string) (rest : string) :
  r <> [] -> read_record (Write r ++ rest) = Some (r, rest).
Proof.
  intros Hne. unfold read_record. pose proof (Write_length r rest).
  unfold Write in *. rewrite str_app_assoc. cbn [append].
  apply read_fields_Write; [exact Hne|]. rewrite str_app_assoc in H. cbn [append] in H. lia.
Qed.

Lemma write_all_length (rs : list (list string)) :
  (List.length rs <= String.length (write_all rs))%nat.
Proof.
  induction rs as [|r rs IH]; simpl; [lia|].
  unfold Write. rewrite !str_length_app. simpl. lia.
Qed.

Lemma read_records_write_all (fuel : nat) (rs : list (list string)) :
  Forall (fun r => r <> []) rs -> (List.length rs < fuel)%nat ->
  read_records fuel (write_all rs) = Some rs.
Proof.
  revert fuel. induction rs as [|r rs IH]; intros fuel Hne Hf.
  - destruct fuel; reflexivity.
  - inversion Hne as [|? ? Hr Hrs]; subst.
    destruct fuel as [|fuel]; [simpl in Hf; lia|].
    simpl write_all. 
    assert (E : exists x s', (Write r ++ write_all rs)%string = String x s').
    { unfold Write. destruct (String.concat "," (map write_field r)); simpl; eauto. }
    destruct E as [x [s' E]]. rewrite E. cbn [read_records]. rewrite <- E.
    pose proof (read_record_Write r (write_all rs) Hr) as R. unfold read_record in R.
    rewrite R. simpl. rewrite IH by (assumption || (simpl in Hf; lia)). reflexivity.
Qed.

Lemma ReadAll_write_all (rs : list (list string)) :
  Forall (fun r => r <> []) rs -> ReadAll (write_all rs) = Some rs.
Proof.
  intros H. apply read_records_write_all; [exact H|]. pose proof (write_all_length rs). lia.
Qed.
End CsvFacts.

Lemma WriteCSV_content (sp : float64 -> string) (create_ok : bool) (games : list Game) :
  match WriteCSV sp create_ok games with
  | Some out => create_ok = true /\ Csv.ReadAll out = Some (csv_header :: map (csv_row sp) games)
  | None => create_ok = false
  end.
Proof.
  unfold WriteCSV. destruct create_ok; [|reflexivity]. split; [reflexivity|].
  apply CsvFacts.ReadAll_write_all. constructor; [discriminate|].
  apply Forall_forall. intros r Hr. apply in_map_iff in Hr as [g [<- _]]. discriminate.
Qed.

Lemma BuildGame_shape (scan : float_scanner) (tables : list table) (name url : string) (g : Game) :
  BuildGame scan tables name url = Normal g ->
  Name g = name /\ URL g = url /\ GameNumber g = 0.
Proof.
  unfold BuildGame. destruct tables as [|meta [|pt rest]]; try discriminate.
  destruct (ParseMetaData scan meta) as [[price odds] date].
  destruct (ParsePrizes pt); try discriminate. intros H. injection H as <-. auto.
Qed.

Lemma run_tasks_fields (scan : float_scanner) (fetch : string -> Fetch) (ls : list string)
  (games : list Game) :
  run_tasks scan fetch ls = Normal games ->
  map URL games = ls /\ map Name games = map exctractGameName ls /\
  Forall (fun g => GameNumber g = 0) games.
Proof.
  revert games. induction ls as [|l ls IH]; intros games H; simpl in H.
  - injection H as <-. repeat constructor.
  - destruct (task scan l (fetch l)) as [g| |] eqn:Ht; try discriminate.
    destruct (run_tasks scan fetch ls) as [gs| |]; try discriminate.
    injection H as <-. destruct (IH gs eq_refl) as [H1 [H2 H3]].
    unfold task in Ht. destruct (ParseGame (fetch l)); try discriminate.
    destruct (BuildGame_shape _ _ _ _ _ Ht) as [E1 [E2 E3]].
    simpl. rewrite E1, E2, H1, H2. auto.
Qed.

Lemma run_tasks_Forall2 (scan : float_scanner) (fetch : string -> Fetch) (ls : list string)
  (games : list Game) :
  run_tasks scan fetch ls = Normal games ->
  Forall2 (fun l g => task scan l (fetch l) = Normal g) ls games.
Proof.
  revert games. induction ls as [|l ls IH]; intros games H; simpl in H.
  - injection H as <-. constructor.
  - destruct (task scan l (fetch l)) as [g| |] eqn:Ht; try discriminate.
    destruct (run_tasks scan fetch ls) as [gs| |]; try discriminate.
    injection H as <-. constructor; [exact Ht | exact (IH gs eq_refl)].
Qed.

Lemma task_fields (scan : float_scanner) (l : string) (f : Fetch) (g : Game) :
  task scan l f = Normal g ->
  URL g = l /\ Name g = exctractGameName l /\ GameNumber g = 0.
Proof.
  unfold task. destruct (ParseGame f); try discriminate. intros Ht.
  destruct (BuildGame_shape _ _ _ _ _ Ht) as [E1 [E2 E3]]. auto.
Qed.

Lemma Forall2_tasks_fields (scan : float_scanner) (fetch : string -> Fetch)
  (ls : list string) (games : list Game) :
  Forall2 (fun l g => task scan l (fetch l) = Normal g) ls games ->
  Permutation (map URL games) ls /\
  Forall (fun g => Name g = exctractGameName (URL g) /\ GameNumber g = 0) games.
Proof.
  induction 1 as [|l g ls gs Ht _ [IH1 IH2]]; [split; constructor|].
  destruct (task_fields _ _ _ _ Ht) as [E1 [E2 E3]].
  split.
  - simpl. rewrite E1. constructor. exact IH1.
  - constructor; [rewrite E1; split; assumption | exact IH2].
Qed.



Module TablesFacts.
Import Markup.

Lemma tables_loop_app_cell (ts : list table) (ct : table) (cr : list string) (b : bool)
  (c : string) (rest : list Token) :
  tables_loop (mkTableState ts ct cr true true b) (render_cell c ++ rest) =
  tables_loop (mkTableState ts ct (cr ++ clean_row [c]) true true false) rest.
Proof.
  unfold render_cell, clean_row. simpl.
  destruct (String.eqb (TrimSpace c) EmptyString); simpl.
  - rewrite app_nil_r. reflexivity.
  - reflexivity.
Qed.

Lemma clean_row_cons (c : string) (r : list string) :
  clean_row (c :: r) = clean_row [c] ++ clean_row r.
Proof. unfold clean_row. simpl. destruct (negb _); reflexivity. Qed.

Lemma tables_loop_app_cells (ts : list table) (ct : table) (cr : list string)
  (r : list string) (rest : list Token) :
  tables_loop (mkTableState ts ct cr true true false) (flat_map render_cell r ++ rest) =
  tables_loop (mkTableState ts ct (cr ++ clean_row r) true true false) rest.
Proof.
  revert cr. induction r as [|c r IH]; intros cr.
  - simpl. rewrite app_nil_r. reflexivity.
  - cbn [flat_map]. rewrite <- app_assoc, tables_loop_app_cell, IH.
    rewrite <- app_assoc, <- clean_row_cons. reflexivity.
Qed.

Lemma tables_loop_app_row (ts : list table) (ct : table) (cr : list string)
  (r : list string) (rest : list Token) :
  tables_loop (mkTableState ts ct cr true false false) (render_row r ++ rest) =
  tables_loop (mkTableState ts (ct ++ [clean_row r]) (clean_row r) true false false) rest.
Proof.
  unfold render_row. simpl. rewrite <- app_assoc, tables_loop_app_cells. reflexivity.
Qed.

Lemma last_cons {A} (d x : A) (l : list A) : last (x :: l) d = last l x.
Proof.
  revert x d. induction l as [|y l IH]; intros x d; [reflexivity|].
  change (last (x :: y :: l) d) with (last (y :: l) d). rewrite !IH. reflexivity.
Qed.

Lemma tables_loop_app_rows (ts : list table) (ct : table) (cr : list string)
  (rows : table) (rest : list Token) :
  tables_loop (mkTableState ts ct cr true false false) (flat_map render_row rows ++ rest) =
  tables_loop (mkTableState ts (ct ++ map clean_row rows) (last (map clean_row rows) cr)
                 true false false) rest.
Proof.
  revert ct cr. induction rows as [|r rows IH]; intros ct cr.
  - simpl. rewrite app_nil_r. reflexivity.
  - cbn [flat_map]. rewrite <- app_assoc, tables_loop_app_row, IH.
    rewrite <- app_assoc. cbn [map]. rewrite last_cons. reflexivity.
Qed.

Lemma tables_loop_app_table (ts : list table) (ct : table) (cr : list string)
  (t : table) (rest : list Token) :
  tables_loop (mkTableState ts ct cr false false false) (render_table t ++ rest) =
  tables_loop (mkTableState (ts ++ [map clean_row t]) (map clean_row t)
                 (last (map clean_row t) cr) false false false) rest.
Proof.
  unfold render_table. simpl. rewrite <- app_assoc, tables_loop_app_rows. reflexivity.
Qed.

Lemma tables_loop_render (ts : list table) (ct : table) (cr : list string)
  (tss : list table) :
  tables_loop (mkTableState ts ct cr false false false) (render_tables tss) =
  ts ++ map (map clean_row) tss.
Proof.
  revert ts ct cr. induction tss as [|t tss IH]; intros ts ct cr.
  - simpl. rewrite app_nil_r. reflexivity.
  - unfold render_tables. cbn [flat_map]. rewrite tables_loop_app_table.
    fold (render_tables tss). rewrite IH, <- app_assoc. reflexivity.
Qed.
End TablesFacts.

Lemma subseq_nil_l {A} (l : list A) : subseq [] l.
Proof. induction l; constructor; assumption. Qed.

Lemma subseq_skip_app {A} (p l l' : list A) : subseq l l' -> subseq l (p ++ l').
Proof. intros H. induction p; simpl; [exact H | constructor; assumption]. Qed.

Lemma subseq_keep_app {A} (p l l' : list A) : subseq l l' -> subseq (p ++ l) (p ++ l').
Proof. intros H. induction p; simpl; [exact H | constructor; assumption]. Qed.

Lemma links_step_links (st : LinkState) (t : Token) :
  links (links_step st t) = links st \/ links (links_step st t) = links st ++ hrefs_of t.
Proof.
  unfold links_step, hrefs_of.
  repeat match goal with
         | |- context [match ?x with pair _ _ => _ end] =>
             lazymatch x with context [match _ with pair _ _ => _ end] => fail | _ => destruct x end
         end.
  cbn [links].
  match goal with |- context [if ?c then map Val ?l else []] => destruct c eqn:E end.
  - right. apply andb_prop in E as [E1 E2]. apply andb_prop in E1 as [_ E1].
    rewrite E1, E2. reflexivity.
  - left. apply app_nil_r.
Qed.

Lemma links_loop_subseq (st : LinkState) (toks : list Token) :
  exists x, links_loop st toks = links st ++ x /\ subseq x (all_hrefs toks).
Proof.
  revert st. induction toks as [|t toks IH]; intros st; simpl.
  - exists []. split; [symmetry; apply app_nil_r | constructor].
  - destruct (tt_eqb (Type' t) ErrorToken).
    + exists []. split; [symmetry; apply app_nil_r | apply subseq_nil_l].
    + destruct (IH (links_step st t)) as [x [Hx Hs]]. rewrite Hx.
      destruct (links_step_links st t) as [E|E]; rewrite E.
      * exists x. split; [reflexivity|]. apply subseq_skip_app. exact Hs.
      * exists (hrefs_of t ++ x). split; [symmetry; apply app_assoc|].
        apply subseq_keep_app. exact Hs.
Qed.





Lemma sub_zero_r (x : float64) : F64.is_nan x = false -> F64.sub x F64.zero = x.
Proof. destruct x as [[]|[]| |]; reflexivity || discriminate. Qed.

Lemma ev_fold_no_contrib (rt : Z) (tiers : list PrizeTier) (acc : float64) :
  Forall (fun p => RemainingCount p <= 0 \/ Value p <= 0) tiers ->
  fold_left (ev_step rt) tiers acc = acc.
Proof.
  revert acc. induction tiers as [|p tiers IH]; intros acc H; [reflexivity|].
  inversion H as [|? ? Hp Ht]; subst. simpl. unfold ev_step at 2.
  replace ((RemainingCount p <=? 0) || (Value p <=? 0)) with true
    by (symmetry; apply orb_true_iff; destruct Hp; [left|right]; apply Z.leb_le; assumption).
  apply IH. exact Ht.
Qed.



Lemma mul_zero_of_int (n : Z) :
  GoInt.in_range n -> exists s, F64.mul F64.zero (F64.of_int n) = S754_zero s.
Proof.
  intros H. pose proof (of_int_is_finite n H) as F.
  destruct (F64.of_int n) as [s|s| |s m e]; try discriminate; eexists; reflexivity.
Qed.





Lemma all_digits_bytes (s : string) :
  all_digits s = true -> Forall price_cell_byte (list_ascii_of_string s).
Proof.
  induction s as [|c s IH]; simpl; intros H; [constructor|].
  destruct (digit c) eqn:E; [|discriminate]. constructor; [|auto].
  left. rewrite E. discriminate.
Qed.

Lemma Itoa_bytes (n : Z) : Forall price_cell_byte (list_ascii_of_string (Itoa n)).
Proof.
  unfold Itoa. destruct (Z.ltb_spec n 0).
  - simpl. constructor; [right; left; reflexivity|]. apply all_digits_bytes, FormatUint_ok. lia.
  - apply all_digits_bytes, FormatUint_ok. lia.
Qed.

Lemma lower_byte_no_n (c : ascii) : price_cell_byte c -> lower_byte c = c.
Proof.
  unfold lower_byte. intros [H | [ -> | -> ]]; [|reflexivity|reflexivity].
  unfold digit in H. destruct ((48 <=? nat_of_ascii c)%nat && (nat_of_ascii c <=? 57)%nat) eqn:E;
    [|congruence].
  apply andb_prop in E as [_ E]. apply Nat.leb_le in E.
  replace ((65 <=? nat_of_ascii c)%nat) with false by (symmetry; apply Nat.leb_gt; lia).
  reflexivity.
Qed.

Lemma ToLower_no_n (s : string) : Forall price_cell_byte (list_ascii_of_string s) -> ToLower s = s.
Proof.
  induction s as [|c s IH]; simpl; intros H; [reflexivity|].
  inversion H; subst. rewrite lower_byte_no_n, IH by assumption. reflexivity.
Qed.

Lemma prefix_bytes (sub s : string) (c : ascii) :
  String.prefix sub s = true -> In c (list_ascii_of_string sub) -> In c (list_ascii_of_string s).
Proof.
  revert s. induction sub as [|x sub IH]; intros s H Hc; [destruct Hc|].
  destruct s as [|y s]; [discriminate|]. simpl in H.
  destruct (ascii_dec x y) as [<-|]; [|discriminate].
  destruct Hc as [<-|Hc]; [left; reflexivity | right; apply (IH s H Hc)].
Qed.

Lemma Contains_bytes (s sub : string) (c : ascii) :
  Contains s sub = true -> In c (list_ascii_of_string sub) -> In c (list_ascii_of_string s).
Proof.
  induction s as [|y s IH]; intros H Hc; simpl in H.
  - destruct sub; [destruct Hc | discriminate].
  - apply orb_true_iff in H as [H|H].
    + exact (prefix_bytes sub (String y s) c H Hc).
    + right. exact (IH H Hc).
Qed.

Lemma no_second_chance (s : string) :
  Forall price_cell_byte (list_ascii_of_string s) -> Contains s "2nd chance" = false.
Proof.
  intros H. destruct (Contains s "2nd chance") eqn:E; [|reflexivity].
  exfalso. pose proof (Contains_bytes _ _ "n"%char E (or_intror (or_introl eq_refl))) as Hin.
  rewrite Forall_forall in H. destruct (H _ Hin) as [D|[D|D]]; [apply D; reflexivity | discriminate | discriminate].
Qed.

Lemma prize_row_render (p : PrizeTier) :
  wf_tier p -> prize_row (render_prize p) = Some p.
Proof.
  intros [Hv [Ho Hr]]. unfold prize_row, render_prize.
  rewrite (ToLower_no_n (String "$" (Itoa (Value p)))).
  2:{ constructor; [right; right; reflexivity | apply Itoa_bytes]. }
  rewrite no_second_chance by (constructor; [right; right; reflexivity | apply Itoa_bytes]).
  destruct (parse_Itoa _ Hv) as [_ [_ E1]]. destruct (parse_Itoa _ Ho) as [E2 _].
  destruct (parse_Itoa _ Hr) as [E3 _]. rewrite E1, E2, E3. destruct p; reflexivity.
Qed.



Lemma last_cell_app (a b : list string) :
  last_cell (a ++ b) = match last_cell b with Some v => Some v | None => last_cell a end.
Proof.
  unfold last_cell. rewrite rev_app_distr. destruct (rev b); reflexivity.
Qed.

Lemma ParseMetaData_fold (scan : float_scanner) (t : table) (p : Z) (o : float64) (d : string) :
  fold_left (meta_step scan) t (p, o, d) =
  (match last_cell (price_cells t) with Some v => parseDollar v | None => p end,
   match last_cell (odds_cells t) with Some v => parseOdds scan v | None => o end,
   match last_cell (date_cells t) with Some v => v | None => d end).
Proof.
  revert p o d. induction t as [|row t IH]; intros p o d; [reflexivity|].
  cbn [fold_left]. destruct (meta_step scan (p, o, d) row) as [[p' o'] d'] eqn:E.
  rewrite IH. unfold price_cells, odds_cells, date_cells. cbn [flat_map].
  rewrite !last_cell_app.
  destruct (last_cell (flat_map _ t)), (last_cell (flat_map _ t)), (last_cell (flat_map _ t));
    try reflexivity;
  destruct row as [|k [|v rest]]; simpl in E |- *; try (injection E as <- <- <-; reflexivity);
  destruct (Contains (ToLower k) "ticket price"), (Contains (ToLower k) "overall odds"),
    (Contains (ToLower k) "launch date"); simpl in E |- *; injection E as <- <- <-; reflexivity.
Qed.



Module NameFacts.

Lemma las_app (a b : string) :
  list_ascii_of_string (a ++ b) = list_ascii_of_string a ++ list_ascii_of_string b.
Proof. induction a as [|x a IH]; simpl; [reflexivity | now rewrite IH]. Qed.

Lemma sola_app (a b : list ascii) :
  string_of_list_ascii (a ++ b) = (string_of_list_ascii a ++ string_of_list_ascii b)%string.
Proof. induction a as [|x a IH]; simpl; [reflexivity | now rewrite IH]. Qed.

Lemma rev_string_app (a b : string) :
  rev_string (a ++ b) = (rev_string b ++ rev_string a)%string.
Proof. unfold rev_string. rewrite las_app, rev_app_distr, sola_app. reflexivity. Qed.

Lemma rev_string_involutive (s : string) : rev_string (rev_string s) = s.
Proof.
  unfold rev_string. rewrite list_ascii_of_string_of_list_ascii, rev_involutive.
  apply string_of_list_ascii_of_string.
Qed.

Lemma count_char_list (c : ascii) (s : string) :
  count_char c s = List.length (filter (fun x => Ascii.eqb x c) (list_ascii_of_string s)).
Proof. induction s as [|x s IH]; simpl; [reflexivity|]. destruct (Ascii.eqb x c); simpl; lia. Qed.

Lemma length_list (s : string) : String.length s = List.length (list_ascii_of_string s).
Proof. induction s as [|x s IH]; simpl; [reflexivity | now rewrite IH]. Qed.

Lemma rev_string_count (c : ascii) (s : string) :
  count_char c (rev_string s) = count_char c s /\ String.length (rev_string s) = String.length s.
Proof.
  unfold rev_string. rewrite !count_char_list, !length_list, list_ascii_of_string_of_list_ascii.
  rewrite filter_rev, !length_rev. split; reflexivity.
Qed.

Lemma count_char_le (c : ascii) (s : string) : (count_char c s <= String.length s)%nat.
Proof. induction s as [|x s IH]; simpl; [lia|]. destruct (Ascii.eqb x c); lia. Qed.

Lemma trim_left_all (c : ascii) (a s : string) :
  count_char c a = String.length a -> trim_left c (a ++ s) = trim_left c s.
Proof.
  induction a as [|x a IH]; simpl; intros H; [reflexivity|].
  destruct (Ascii.eqb x c); [apply IH; lia|].
  pose proof (count_char_le c a). lia.
Qed.

Lemma trim_left_stop (c x : ascii) (s : string) :
  x <> c -> trim_left c (String x s) = String x s.
Proof. intros H. simpl. destruct (Ascii.eqb_spec x c); [congruence | reflexivity]. Qed.

Lemma Trim_inner (c x : ascii) (a m' b : string) :
  count_char c a = String.length a -> count_char c b = String.length b -> x <> c ->
  (exists y r, rev_string (String x m') = String y r /\ y <> c) ->
  Trim (a ++ String x m' ++ b) c = String x m'.
Proof.
  intros Ha Hb Hx [y [r [Hr Hy]]]. unfold Trim.
  rewrite trim_left_all by exact Ha. cbn [append]. rewrite trim_left_stop by exact Hx.
  change (String x (m' ++ b)) with (String x m' ++ b)%string.
  rewrite rev_string_app, trim_left_all.
  2:{ destruct (rev_string_count c b) as [E1 E2]. rewrite E1, E2. exact Hb. }
  rewrite Hr, trim_left_stop by exact Hy. rewrite <- Hr. apply rev_string_involutive.
Qed.

Lemma rev_string_head (c : ascii) (s : string) :
  s <> EmptyString -> count_char c s = 0%nat ->
  exists y r, rev_string s = String y r /\ y <> c.
Proof.
  intros Hne H0. destruct (rev_string s) as [|y r] eqn:E.
  - destruct (rev_string_count c s) as [_ L]. rewrite E in L.
    destruct s; [congruence | discriminate].
  - exists y, r. split; [reflexivity|]. intros ->.
    destruct (rev_string_count c s) as [C _]. rewrite E in C. simpl in C.
    rewrite Ascii.eqb_refl in C. lia.
Qed.

Lemma count_char_app (c : ascii) (a b : string) :
  count_char c (a ++ b) = (count_char c a + count_char c b)%nat.
Proof. induction a as [|x a IH]; simpl; [reflexivity | rewrite IH; lia]. Qed.

Lemma Split_last (c : ascii) (a b : string) :
  count_char c b = 0%nat ->
  exists l, l <> [] /\ Split (a ++ String c b) c = l ++ [b].
Proof.
  intros Hb. induction a as [|x a IH].
  - exists [EmptyString]. split; [discriminate|]. simpl. rewrite Ascii.eqb_refl.
    rewrite Split_no_sep by exact Hb. reflexivity.
  - destruct IH as [l [Hl E]]. cbn [append Split]. rewrite E.
    destruct (Ascii.eqb x c).
    + exists (EmptyString :: l). split; [discriminate | reflexivity].
    + destruct l as [|p ps]; [congruence|].
      exists (String x p :: ps). split; [discriminate | reflexivity].
Qed.
End NameFacts.

(** ** Further properties of the code *)

(** X1: for every int [n], [strconv.Itoa(n)] reads back through [parseInt], through [parseDollar], and through [parseDollar] with a leading dollar sign, as [n]. *)
Theorem Itoa_round_trip (n : Z) :
  GoInt.in_range n ->
  parseInt (Itoa n) = n /\ parseDollar (Itoa n) = n /\
  parseDollar (String "$"%char (Itoa n)) = n.
Proof. apply parse_Itoa. Qed.

Lemma Itoa_round_trip_witness :
  GoInt.in_range (-1234) /\
  parseInt (Itoa (-1234)) = -1234 /\ parseDollar (Itoa (-1234)) = -1234 /\
  parseDollar (String "$"%char (Itoa (-1234))) = -1234.
Proof.
  assert (H : GoInt.in_range (-1234))
    by (unfold GoInt.in_range, GoInt.int_min, GoInt.int_max; lia).
  split; [exact H | apply (Itoa_round_trip (-1234) H)].
Defined.

(** X2: [WriteCSV] fails exactly when the file cannot be created; otherwise the bytes it writes read back, as RFC 4180 CSV, as the header row followed by one row of ten fields per game, in the order of the games, whatever commas, quotes or line breaks the fields contain. *)
Theorem WriteCSV_reads_back (sp : float64 -> string) (create_ok : bool) (games : list Game) :
  match WriteCSV sp create_ok games with
  | Some out => create_ok = true /\ Csv.ReadAll out = Some (csv_header :: map (csv_row sp) games)
  | None => create_ok = false
  end.
Proof. apply WriteCSV_content. Qed.

(** X3: when [main] completes, the landing page was fetched, the goroutine of every discovered link returned a game for that link, the CSV file could be created, and the CSV read back is the header followed by one row per game, in some order (the rows of those games rearranged). *)
Theorem main_output (scan : float_scanner) (sp : float64 -> string) (landing : Fetch)
  (fetch : string -> Fetch) (create_ok : bool) (out : string) :
  main scan sp landing fetch create_ok = Normal out ->
  exists page games rows,
    landing = Page page /\ create_ok = true /\
    Forall2 (fun l g => task scan l (fetch l) = Normal g) (GetLinks page) games /\
    Permutation rows (map (csv_row sp) games) /\
    Csv.ReadAll out = Some (csv_header :: rows).
Proof.
  unfold main. destruct landing as [| |page]; try discriminate. simpl.
  destruct (run_tasks scan fetch (GetLinks page)) as [games| |] eqn:Hr; try discriminate.
  pose proof (WriteCSV_content sp create_ok (sort_games games)) as W.
  destruct (WriteCSV sp create_ok (sort_games games)) as [o|]; [|discriminate].
  intros H. injection H as <-. destruct W as [Hc Hread].
  exists page, games, (map (csv_row sp) (sort_games games)). repeat split; auto.
  - exact (run_tasks_Forall2 scan fetch _ _ Hr).
  - apply Permutation_map. apply sort_slice_perm.
Qed.

Lemma main_output_witness :
  exists out, main scan_decimal sprintf_stub (Page links_fixture) fetch_game_page true = Normal out /\
  exists page games rows,
    Page links_fixture = Page page /\ true = true /\
    Forall2 (fun l g => task scan_decimal l (fetch_game_page l) = Normal g) (GetLinks page) games /\
    Permutation rows (map (csv_row sprintf_stub) games) /\
    Csv.ReadAll out = Some (csv_header :: rows).
Proof.
  destruct (main scan_decimal sprintf_stub (Page links_fixture) fetch_game_page true)
    as [out| |] eqn:E.
  - exists out. split; [reflexivity|]. exact (main_output _ _ _ _ _ out E).
  - vm_compute in E. discriminate.
  - vm_compute in E. discriminate.
Defined.

(** X4: when every goroutine of [main] returns a game, the list the goroutines append to, in whatever order they finish, holds the links as URLs, each once, and every game's name is what [exctractGameName] gives for its URL, and its GameNumber is 0 (BuildGame never sets it). *)
Theorem run_tasks_games (scan : float_scanner) (fetch : string -> Fetch) (ls : list string)
  (gs games : list Game) :
  Forall2 (fun l g => task scan l (fetch l) = Normal g) ls gs ->
  Permutation games gs ->
  Permutation (map URL games) ls /\
  Forall (fun g => Name g = exctractGameName (URL g) /\ GameNumber g = 0) games.
Proof.
  intros HF Hp. destruct (Forall2_tasks_fields scan fetch ls gs HF) as [H1 H2]. split.
  - exact (Permutation_trans (Permutation_map URL Hp) H1).
  - eapply Permutation_Forall; [apply Permutation_sym; exact Hp | exact H2].
Qed.

Lemma run_tasks_games_witness :
  exists gs,
    Forall2 (fun l g => task scan_decimal l (fetch_game_page l) = Normal g)
      ["/games/one"; "/games/two"]%string gs /\
    Permutation (rev gs) gs /\
    Permutation (map URL (rev gs)) ["/games/one"; "/games/two"]%string /\
    Forall (fun g => Name g = exctractGameName (URL g) /\ GameNumber g = 0) (rev gs).
Proof.
  destruct (run_tasks scan_decimal fetch_game_page ["/games/one"; "/games/two"]%string)
    as [gs| |] eqn:E.
  - pose proof (run_tasks_Forall2 _ _ _ _ E) as HF.
    assert (Hp : Permutation (rev gs) gs) by apply Permutation_sym, Permutation_rev.
    exists gs. split; [exact HF|]. split; [exact Hp|].
    exact (run_tasks_games _ _ _ gs (rev gs) HF Hp).
  - vm_compute in E. discriminate.
  - vm_compute in E. discriminate.
Defined.

(** X5: on the tokens of a page made of [table], [tr] and [td] elements, [ExtractTables] returns those tables in order, each cell trimmed of leading and trailing white space (Unicode spaces such as U+00A0 included) and the cells left empty by trimming dropped. *)
Theorem ExtractTables_tables (tss : list table) :
  ExtractTables (Markup.render_tables tss) = map (map Markup.clean_row) tss.
Proof. apply TablesFacts.tables_loop_render. Qed.

(** X6: the links [GetLinks] returns are href values of anchor start tags of the page, in page order: the list is a subsequence of all anchors' hrefs. *)
Theorem GetLinks_subseq (page : list Token) : subseq (GetLinks page) (all_hrefs page).
Proof.
  destruct (links_loop_subseq (mkLinkState [] false 0) page) as [x [Hx Hs]].
  unfold GetLinks. rewrite Hx. exact Hs.
Qed.

(** X7: on a page with no div start tag carrying the marker class, [GetLinks] returns no link, whatever anchors the page has. *)
Theorem GetLinks_no_marker (page : list Token) :
  Forall (fun t => tt_eqb (Type' t) StartTagToken && String.eqb (Data t) "div"
                   && existsb is_marker (Attr t) = false) page ->
  GetLinks page = [].
Proof.
  unfold GetLinks. generalize 0 as d.
  induction page as [|t page IH]; intros d H; [reflexivity|].
  inversion H as [|? ? Ht Hp]; subst. simpl.
  destruct (tt_eqb (Type' t) ErrorToken); [reflexivity|].
  replace (links_step (mkLinkState [] false d) t) with
    (mkLinkState [] false
       (divDepth (links_step (mkLinkState [] false d) t))).
  - apply IH. exact Hp.
  - unfold links_step. cbn [inActiveSession divDepth links].
    destruct (tt_eqb (Type' t) StartTagToken && String.eqb (Data t) "div") eqn:E.
    + try rewrite E in Ht. simpl in Ht. rewrite Ht. simpl.
      destruct (tt_eqb (Type' t) EndTagToken && String.eqb (Data t) "div"); reflexivity.
    + destruct (tt_eqb (Type' t) EndTagToken && String.eqb (Data t) "div"); reflexivity.
Qed.

Lemma GetLinks_no_marker_witness :
  Forall (fun t => tt_eqb (Type' t) StartTagToken && String.eqb (Data t) "div"
                   && existsb is_marker (Attr t) = false) unmarked_page /\
  GetLinks unmarked_page = [].
Proof.
  assert (H : Forall (fun t => tt_eqb (Type' t) StartTagToken && String.eqb (Data t) "div"
                   && existsb is_marker (Attr t) = false) unmarked_page)
    by (repeat constructor).
  split; [exact H | exact (GetLinks_no_marker unmarked_page H)].
Defined.

(** X8: a game none of whose tiers has both a positive remaining count and a positive value has EV equal to its price, whatever its odds and totals. *)
Theorem EV_no_contributing_tier (g : Game) :
  Forall (fun p => RemainingCount p <= 0 \/ Value p <= 0) (PrizeTiers g) ->
  EV g = F64.of_int (Price g).
Proof.
  intros H. unfold EV. destruct (RemainingTickets g =? 0); [reflexivity|].
  rewrite ev_fold_no_contrib by exact H. apply sub_zero_r, of_int_not_nan.
Qed.

Lemma EV_no_contributing_tier_witness :
  Forall (fun p => RemainingCount p <= 0 \/ Value p <= 0) (PrizeTiers spent_game) /\
  EV spent_game = F64.of_int (Price spent_game).
Proof.
  assert (H : Forall (fun p => RemainingCount p <= 0 \/ Value p <= 0) (PrizeTiers spent_game))
    by (repeat constructor; simpl; lia).
  split; [exact H | exact (EV_no_contributing_tier spent_game H)].
Defined.

(** X9: a game whose odds are 0 (the value [parseOdds] gives for a cell it cannot read) and whose totals are ints has ticket estimates 0 and 0 and EV equal to its price. *)
Theorem EV_zero_odds (g : Game) :
  Odds g = F64.zero -> GoInt.in_range (TotalOriginalPrizes g) ->
  GoInt.in_range (TotalRemainingPrizes g) ->
  OriginalTickets g = 0 /\ RemainingTickets g = 0 /\ EV g = F64.of_int (Price g).
Proof.
  intros Ho H1 H2. unfold EV, OriginalTickets, RemainingTickets. rewrite Ho.
  destruct (mul_zero_of_int _ H1) as [s1 E1]. destruct (mul_zero_of_int _ H2) as [s2 E2].
  rewrite E1, E2. repeat split.
Qed.

Lemma EV_zero_odds_witness :
  OriginalTickets zero_odds_game = 0 /\ RemainingTickets zero_odds_game = 0 /\
  EV zero_odds_game = F64.of_int (Price zero_odds_game).
Proof.
  apply EV_zero_odds; [reflexivity | | ];
    unfold GoInt.in_range, GoInt.int_min, GoInt.int_max; simpl; lia.
Defined.

(** X10: the EV of a game whose int fields hold ints is never NaN, so the comparison used to sort the games is a strict weak order on them. *)
Theorem EV_is_not_nan (g : Game) : wf_game g -> F64.is_nan (EV g) = false.
Proof. apply EV_not_nan. Qed.

Lemma EV_is_not_nan_witness :
  wf_game report_game_a /\ F64.is_nan (EV report_game_a) = false.
Proof.
  assert (H : wf_game report_game_a).
  { unfold wf_game, wf_tier, GoInt.in_range, GoInt.int_min, GoInt.int_max.
    repeat constructor; simpl; lia. }
  split; [exact H | exact (EV_is_not_nan report_game_a H)].
Defined.

(** X11: a prize table with a header row and one row of cells $V, O and R per tier, the numbers written by [strconv.Itoa], is read by [ParsePrizes] as exactly those tiers, in order. *)
Theorem ParsePrizes_render (header : list string) (tiers : list PrizeTier) :
  Forall wf_tier tiers ->
  ParsePrizes (header :: map render_prize tiers) = Normal tiers.
Proof.
  intros H. unfold ParsePrizes. f_equal. induction H as [|p tiers Hp Ht IH]; [reflexivity|].
  cbn [map prize_rows]. rewrite prize_row_render by exact Hp. rewrite IH. reflexivity.
Qed.

Lemma ParsePrizes_render_witness :
  Forall wf_tier sample_tiers /\
  ParsePrizes (["Prize"; "Total"; "Remaining"]%string :: map render_prize sample_tiers) =
  Normal sample_tiers.
Proof.
  assert (H : Forall wf_tier sample_tiers).
  { repeat constructor; unfold GoInt.in_range, GoInt.int_min, GoInt.int_max; simpl; lia. }
  split; [exact H | exact (ParsePrizes_render _ sample_tiers H)].
Defined.

(** X12: for a table whose label cells (the first cell of each row) are ASCII, [ParseMetaData] takes each field from the last row of at least two cells that its switch sends to that field (price, then odds, then launch date, on the lower-cased first cell), and leaves it 0, 0.0 or empty when there is no such row. *)
Theorem ParseMetaData_last (scan : float_scanner) (t : table) :
  Forall (fun row => is_ascii_string (hd EmptyString row) = true) t ->
  ParseMetaData scan t =
  (match last_cell (price_cells t) with Some v => parseDollar v | None => 0 end,
   match last_cell (odds_cells t) with Some v => parseOdds scan v | None => F64.zero end,
   match last_cell (date_cells t) with Some v => v | None => EmptyString end).
Proof. intros _. apply ParseMetaData_fold. Qed.

Lemma ParseMetaData_last_witness :
  Forall (fun row => is_ascii_string (hd EmptyString row) = true) meta_fixture /\
  ParseMetaData scan_decimal meta_fixture =
  (match last_cell (price_cells meta_fixture) with Some v => parseDollar v | None => 0 end,
   match last_cell (odds_cells meta_fixture) with Some v => parseOdds scan_decimal v | None => F64.zero end,
   match last_cell (date_cells meta_fixture) with Some v => v | None => EmptyString end).
Proof.
  assert (H : Forall (fun row => is_ascii_string (hd EmptyString row) = true) meta_fixture)
    by (repeat constructor).
  split; [exact H | exact (ParseMetaData_last scan_decimal meta_fixture H)].
Defined.

(** X13: for a URL made of leading slashes, a non-slash byte, any text, a slash, a non-empty segment [slug] without slashes and trailing slashes, [exctractGameName] returns [slug] with each dash replaced by a space. *)
Theorem exctractGameName_last_segment (a : string) (x : ascii) (p slug b : string) :
  count_char "/" a = String.length a -> x <> "/"%char ->
  slug <> EmptyString -> count_char "/" slug = 0%nat ->
  count_char "/" b = String.length b ->
  exctractGameName (a ++ String x (p ++ String "/" (slug ++ b))) = replace_char "-" " " slug.
Proof.
  intros Ha Hx Hs Hs0 Hb. unfold exctractGameName.
  replace (String x (p ++ String "/" (slug ++ b)))
    with (String x (p ++ String "/" slug) ++ b)%string
    by (cbn [append]; rewrite str_app_assoc; reflexivity).
  rewrite NameFacts.Trim_inner; [| exact Ha | exact Hb | exact Hx |].
  2:{ replace (String x (p ++ String "/" slug))
        with ((String x p ++ String "/" EmptyString) ++ slug)%string
        by (cbn [append]; rewrite !str_app_assoc; reflexivity).
      rewrite NameFacts.rev_string_app.
      destruct (NameFacts.rev_string_head "/" slug Hs Hs0) as [y [r [E Hy]]].
      rewrite E. exists y. eexists. split; [reflexivity | exact Hy]. }
  change (String x (p ++ String "/" slug)) with (String x p ++ String "/" slug)%string.
  destruct (NameFacts.Split_last "/" (String x p) slug Hs0) as [l [Hl E]]. rewrite E.
  rewrite length_app, last_last.
  replace (1 <? List.length l + List.length [slug])%nat with true; [reflexivity|].
  symmetry. apply Nat.ltb_lt. destruct l; [congruence|]. simpl. lia.
Qed.

Lemma exctractGameName_last_segment_witness :
  exctractGameName ("/" ++ String "g" ("ames" ++ String "/" ("lucky-7s" ++ "/")))%string =
  "lucky 7s"%string.
Proof.
  apply (exctractGameName_last_segment "/" "g" "ames" "lucky-7s" "/");
    reflexivity || discriminate.
Defined.

(** X14: a URL that is a single path segment between slashes is returned unchanged by [exctractGameName], slashes and dashes included. *)
Theorem exctractGameName_single_segment (a slug b : string) :
  count_char "/" a = String.length a -> slug <> EmptyString ->
  count_char "/" slug = 0%nat -> count_char "/" b = String.length b ->
  exctractGameName (a ++ slug ++ b) = (a ++ slug ++ b)%string.
Proof.
  intros Ha Hs Hs0 Hb. unfold exctractGameName.
  destruct slug as [|x m']; [congruence|].
  assert (Hx : x <> "/"%char).
  { intros ->. simpl in Hs0. discriminate. }
  rewrite NameFacts.Trim_inner; [| exact Ha | exact Hb | exact Hx |
    exact (NameFacts.rev_string_head "/" _ Hs Hs0)].
  rewrite Split_no_sep by exact Hs0. reflexivity.
Qed.

Lemma exctractGameName_single_segment_witness :
  exctractGameName ("/" ++ "lucky-7s" ++ "/")%string = ("/" ++ "lucky-7s" ++ "/")%string.
Proof.
  apply exctractGameName_single_segment; reflexivity || discriminate.
Defined.
